(** * promo_processor: the class-hierarchy rule engine

    A shallow embedding of [promo_processor/processor.py] and of the four
    strategy classes under [promo_processor/processors/], with the
    properties of the engine stated and proved over it.

    Conventions of the embedding.
    - A record (a Python [dict] with text keys) is a [gmap string value].
    - A Python value is an integer, a float, a text or a boolean; these are
      the types the data model of the engine lists for a field.  An [int]
      is unbounded ([Z]).  A float is an IEEE 754 binary64 number
      ([spec_float] at precision 53): its arithmetic rounds to the nearest
      double, ties to even, and [round(x, 2)] and [float(text)] go through
      the exact decimal value as CPython's do.  A text is ASCII.
    - A Python exception is the [Raise] branch of [result]; a function
      that can raise returns a [result].  Running out of memory is not an
      outcome of the embedding.
    - [re.search] is a backtracking matcher over a small regular-expression
      syntax that has every construct the five catalog patterns use. *)

From Stdlib Require Import ZArith SpecFloat Decimal String Ascii List Lia.
From stdpp Require Import base option list gmap strings.
Local Open Scope string_scope.
Local Open Scope list_scope.

(** ** Python values, exceptions and arithmetic *)

Module Py.

Inductive exn : Type :=
| KeyError (key : string)
| IndexError
| TypeError
| ValueError
| ZeroDivisionError
| AttributeError
| OverflowError.

Inductive result (A : Type) : Type :=
| Ok (a : A)
| Raise (e : exn).
Arguments Ok {A} a.
Arguments Raise {A} e.

#[export] Instance result_ret : MRet result := @Ok.
#[export] Instance result_bind : MBind result :=
  λ A B f r, match r with Ok a => f a | Raise e => Raise e end.

Definition raises {A} (r : result A) : Prop := ∃ e, r = Raise e.
Definition returns {A} (r : result A) : Prop := ∃ a, r = Ok a.

Definition is_ok {A} (r : result A) : bool :=
  match r with Ok _ => true | Raise _ => false end.

(** *** Characters and numerals *)

Definition is_digit (c : ascii) : bool :=
  let n := nat_of_ascii c in (48 <=? n)%nat && (n <=? 57)%nat.

(** [\s] and [str.isspace] on ASCII text: space, tab, newline, vertical
    tab, form feed, carriage return and the four separators 28 to 31. *)
Definition is_space (c : ascii) : bool :=
  let n := nat_of_ascii c in
  (n =? 32)%nat || ((9 <=? n)%nat && (n <=? 13)%nat) || ((28 <=? n)%nat && (n <=? 31)%nat).

(** The white space [float] drops around a text: of the ASCII characters
    the six of C's [isspace], without the separators 28 to 31. *)
Definition is_blank (c : ascii) : bool :=
  let n := nat_of_ascii c in (n =? 32)%nat || ((9 <=? n)%nat && (n <=? 13)%nat).

Definition digit_val (c : ascii) : Z := Z.of_nat (nat_of_ascii c) - 48.

(** Value of a run of decimal digits, most significant first. *)
Definition digits_val (ds : list ascii) : Z :=
  fold_left (λ acc c, acc * 10 + digit_val c)%Z ds 0%Z.

Definition all_digits (ds : list ascii) : bool := forallb is_digit ds.

(** [sys.get_int_max_str_digits()], as CPython sets it from 3.11 on. *)
Definition int_max_str_digits : nat := 4300.

(** [int(s)] for the texts the patterns capture, which are runs of
    decimal digits: the run is read in base ten, unless it is longer than
    the interpreter's limit for such conversions.  The other forms [int]
    reads (a sign, white space around, underscores) are rejected here; no
    capture of the catalog has them. *)
Definition py_int (s : list ascii) : result Z :=
  match s with
  | [] => Raise ValueError
  | _ =>
      if all_digits s && (length s <=? int_max_str_digits)%nat
      then Ok (digits_val s) else Raise ValueError
  end.

(** The text before the first point and, when there is one, the text
    after it. *)
Fixpoint split_at_dot (s : list ascii) : list ascii * option (list ascii) :=
  match s with
  | [] => ([], None)
  | c :: s' =>
      if Ascii.eqb c "." then ([], Some s')
      else let '(ip, fp) := split_at_dot s' in (c :: ip, fp)
  end.

(** The text before the first [e] or [E] and, when there is one, the text
    after it. *)
Fixpoint split_at_exponent (s : list ascii) : list ascii * option (list ascii) :=
  match s with
  | [] => ([], None)
  | c :: s' =>
      if Ascii.eqb c "e" || Ascii.eqb c "E" then ([], Some s')
      else let '(mp, ep) := split_at_exponent s' in (c :: mp, ep)
  end.

Fixpoint lstrip (s : list ascii) : list ascii :=
  match s with
  | c :: s' => if is_blank c then lstrip s' else s
  | [] => []
  end.

Definition strip (s : list ascii) : list ascii := rev (lstrip (rev (lstrip s))).

(** A leading sign, if any, and the rest. *)
Definition split_sign (s : list ascii) : bool * list ascii :=
  match s with
  | c :: r => if Ascii.eqb c "-" then (true, r)
              else if Ascii.eqb c "+" then (false, r) else (false, s)
  | [] => (false, s)
  end.

(** Digit-group underscores: each must stand between two digits.  [prev]
    is the character before [s]. *)
Fixpoint without_underscores (prev : ascii) (s : list ascii) : option (list ascii) :=
  match s with
  | [] => if Ascii.eqb prev "_" then None else Some []
  | c :: s' =>
      if Ascii.eqb c "_" then
        if is_digit prev then without_underscores c s' else None
      else if Ascii.eqb prev "_" && negb (is_digit c) then None
      else cons c <$> without_underscores c s'
  end.

Definition lower_char (c : ascii) : ascii :=
  let n := nat_of_ascii c in
  if (65 <=? n)%nat && (n <=? 90)%nat then ascii_of_nat (n + 32) else c.

(** *** Floats *)

Abbreviation float := spec_float.

Module Float.

Local Open Scope Z_scope.

Definition prec : Z := 53.
Definition emax : Z := 1024.

(** [*], [+], [-] and [/] of two floats: the exact result rounded to the
    nearest double, ties to even; overflow gives an infinity. *)
Definition mul : float → float → float := SFmul prec emax.
Definition add : float → float → float := SFadd prec emax.
Definition sub : float → float → float := SFsub prec emax.
Definition div : float → float → float := SFdiv prec emax.

Definition is_zero (f : float) : bool :=
  match f with S754_zero _ => true | _ => false end.

Definition is_infinite (f : float) : bool :=
  match f with S754_infinity _ => true | _ => false end.

(** Neither negative nor not-a-number. *)
Definition non_negative (f : float) : Prop :=
  match f with
  | S754_zero s | S754_infinity s | S754_finite s _ _ => s = false
  | S754_nan => False
  end.

(** The integer nearest to [n / d], ties to the even one ([0 < d]). *)
Definition div_half_even (n d : Z) : Z :=
  let q := n / d in
  match 2 * (n mod d) ?= d with
  | Lt => q
  | Gt => q + 1
  | Eq => if Z.even q then q else q + 1
  end.

(** The integer part of the binary logarithm of [n / d] ([0 < n], [0 < d]). *)
Definition log2_ratio (n d : Z) : Z :=
  let t := Z.log2 n - Z.log2 d in
  if (if 0 <=? t then d * 2 ^ t <=? n else d <=? n * 2 ^ (- t)) then t else t - 1.

(** The integer nearest to [(n / d) / 2 ^ e], ties to even. *)
Definition scaled (n d e : Z) : Z :=
  if 0 <=? e then div_half_even n (d * 2 ^ e) else div_half_even (n * 2 ^ (- e)) d.

(** The double nearest to the rational [n / d] ([0 ≤ n], [0 < d]), ties
    to even, with sign [s]: the exponent is that of a 53-bit mantissa, and
    no less than that of the subnormal numbers; a mantissa that rounds up
    to [2 ^ 53] moves to the next exponent; past the largest exponent the
    result is an infinity. *)
Definition of_ratio (s : bool) (n d : Z) : float :=
  if n <=? 0 then S754_zero s else
  let e := Z.max (log2_ratio n d - 52) (-1074) in
  let m := scaled n d e in
  let '(m, e) := if m =? 2 ^ 53 then (2 ^ 52, e + 1) else (m, e) in
  match m with
  | Zpos p => if e <=? 971 then S754_finite s p e else S754_infinity s
  | _ => S754_zero s
  end.

(** The double nearest to an integer, and [float(z)] for an [int], which
    raises when that is an infinity. *)
Definition of_Z (z : Z) : float := of_ratio (z <? 0) (Z.abs z) 1.

Definition of_int (z : Z) : result float :=
  let f := of_Z z in
  if is_infinite f then Raise OverflowError else Ok f.

(** [x / y] for two [int]s, [y] not zero: the double nearest to the exact
    quotient. *)
Definition int_div (x y : Z) : float :=
  of_ratio (xorb (x <? 0) (y <? 0)) (Z.abs x) (Z.abs y).

(** The double nearest to [n * 10 ^ scale]. *)
Definition of_decimal (s : bool) (n scale : Z) : float :=
  if 0 <=? scale then of_ratio s (n * 10 ^ scale) 1
  else of_ratio s n (10 ^ (- scale)).

(** [round(f, 2)]: the exact value of [f] is rounded to a whole number of
    hundredths, ties to even, and the result is the double nearest to
    that; zeros, infinities and not-a-number come back as they are. *)
Definition round2 (f : float) : float :=
  match f with
  | S754_finite s m e =>
      of_ratio s (if 0 <=? e then 100 * Zpos m * 2 ^ e
                  else div_half_even (100 * Zpos m) (2 ^ (- e))) 100
  | _ => f
  end.

(** The digits of a mantissa [digits], [digits.], [.digits] or
    [digits.digits] as one integer, and the number of digits after the
    point. *)
Definition mantissa (s : list ascii) : option (Z * nat) :=
  match split_at_dot s with
  | (ip, None) =>
      match ip with
      | [] => None
      | _ => if all_digits ip then Some (digits_val ip, O) else None
      end
  | (ip, Some fp) =>
      match ip, fp with
      | [], [] => None
      | _, _ =>
          if all_digits ip && all_digits fp
          then Some (digits_val (ip ++ fp), length fp) else None
      end
  end.

(** The exponent after [e]: an optional sign and a run of digits. *)
Definition exponent (s : list ascii) : option Z :=
  let '(negative, ds) := split_sign s in
  match ds with
  | [] => None
  | _ => if all_digits ds
         then Some (if negative then - digits_val ds else digits_val ds) else None
  end.

(** [float(s)] for a text: white space around is dropped and underscores
    between digits are; then come an optional sign and either one of the
    words [inf], [infinity], [nan] in any letter case or a decimal numeral
    with an optional exponent.  Nothing else is a float. *)
Definition of_text (s : list ascii) : option float :=
  body ← without_underscores "000"%char (strip s);
  let '(negative, rest) := split_sign body in
  let word := string_of_list_ascii (map lower_char rest) in
  if String.eqb word "inf" || String.eqb word "infinity" then Some (S754_infinity negative)
  else if String.eqb word "nan" then Some S754_nan
  else
    let '(mp, ep) := split_at_exponent rest in
    '(n, places) ← mantissa mp;
    x ← match ep with None => Some 0 | Some t => exponent t end;
    Some (of_decimal negative n (x - Z.of_nat places)).

(** Float literals: [4.99] is the double nearest to 4.99. *)
Definition literal (n : Number.number) : option float :=
  match n with
  | Number.Decimal (Decimal.Decimal i f) =>
      let '(s, ip) := match i with Decimal.Neg u => (true, u) | Decimal.Pos u => (false, u) end in
      Some (of_decimal s (Z.of_uint (Decimal.app ip f)) (- Z.of_nat (Decimal.nb_digits f)))
  | Number.Decimal (Decimal.DecimalExp i f e) =>
      let '(s, ip) := match i with Decimal.Neg u => (true, u) | Decimal.Pos u => (false, u) end in
      Some (of_decimal s (Z.of_uint (Decimal.app ip f))
              (Z.of_int e - Z.of_nat (Decimal.nb_digits f)))
  | Number.Hexadecimal _ => None
  end.

Definition unparsed (f : float) : option Number.number := None.

End Float.

Declare Scope float_scope.
Delimit Scope float_scope with float.
Bind Scope float_scope with spec_float.
Number Notation spec_float Float.literal Float.unparsed : float_scope.

(** *** Values *)

Inductive value : Type :=
| VInt (z : Z)
| VFloat (f : float)
| VStr (s : string)
| VBool (b : bool).

(** [int] and [float]; [bool] is a subclass of [int]. *)
Inductive number : Type :=
| NInt (z : Z)
| NFloat (f : float).

Definition as_number (v : value) : option number :=
  match v with
  | VInt z => Some (NInt z)
  | VBool b => Some (NInt (Z.b2z b))
  | VFloat f => Some (NFloat f)
  | VStr _ => None
  end.

Definition of_number (n : number) : value :=
  match n with NInt z => VInt z | NFloat f => VFloat f end.

(** A number as the float a mixed operation computes with: an [int] too
    large for a double is an [OverflowError]. *)
Definition to_float (n : number) : result float :=
  match n with NInt z => Float.of_int z | NFloat f => Ok f end.

(** Truth value of an object, as [if x:] and [x or y] test it. *)
Definition truthy (v : value) : bool :=
  match v with
  | VInt z => negb (z =? 0)%Z
  | VFloat f => negb (Float.is_zero f)
  | VStr s => negb (String.eqb s "")
  | VBool b => b
  end.

(** [a or b] where [a] comes from [dict.get] ([None] when the key is
    absent, and [None] is falsy). *)
Definition py_or (a b : option value) : option value :=
  match a with
  | Some v => if truthy v then a else b
  | None => b
  end.

(** [d[k]] and [d.get(k, default)]. *)
Definition getitem (d : gmap string value) (k : string) : result value :=
  match d !! k with
  | Some v => Ok v
  | None => Raise (KeyError k)
  end.

Definition get_default (d : gmap string value) (k : string) (dflt : value) : value :=
  default dflt (d !! k).

Fixpoint str_repeat (s : string) (n : nat) : string :=
  match n with
  | O => ""
  | S n' => s +:+ str_repeat s n'
  end.

(** The largest size of an object, [sys.maxsize]. *)
Definition PY_SSIZE_T_MAX : Z := 2 ^ 63 - 1.

(** [s * n] for a text and an [int]: the count has to fit a machine word,
    a count below one gives the empty text, and the repeated text must not
    be longer than [sys.maxsize].  A text within that bound is built here
    whatever its length; the memory of a machine is not modelled. *)
Definition str_mul (s : string) (n : Z) : result value :=
  if (n <? - 2 ^ 63)%Z || (PY_SSIZE_T_MAX <? n)%Z then Raise OverflowError
  else if (n <=? 0)%Z then Ok (VStr "")
  else if (PY_SSIZE_T_MAX <? Z.of_nat (String.length s) * n)%Z then Raise OverflowError
  else Ok (VStr (str_repeat s (Z.to_nat n))).

(** An operation on two numbers: two [int]s stay [int]s, otherwise both
    operands become floats first. *)
Definition num_binop (fz : Z → Z → Z) (ff : float → float → float)
    (a b : number) : result number :=
  match a, b with
  | NInt x, NInt y => Ok (NInt (fz x y))
  | _, _ => x ← to_float a; y ← to_float b; Ok (NFloat (ff x y))
  end.

(** [a * b]: numbers multiply; a text times an [int] repeats the text;
    any other pairing is a [TypeError]. *)
Definition py_mul (a b : value) : result value :=
  match as_number a, as_number b with
  | Some x, Some y => n ← num_binop Z.mul Float.mul x y; Ok (of_number n)
  | None, Some (NInt n) =>
      match a with VStr s => str_mul s n | _ => Raise TypeError end
  | Some (NInt n), None =>
      match b with VStr s => str_mul s n | _ => Raise TypeError end
  | _, _ => Raise TypeError
  end.

(** [a + b]: numbers add, texts concatenate. *)
Definition py_add (a b : value) : result value :=
  match as_number a, as_number b with
  | Some x, Some y => n ← num_binop Z.add Float.add x y; Ok (of_number n)
  | None, None =>
      match a, b with
      | VStr s, VStr t => Ok (VStr (s +:+ t))
      | _, _ => Raise TypeError
      end
  | _, _ => Raise TypeError
  end.

Definition py_sub (a b : value) : result value :=
  match as_number a, as_number b with
  | Some x, Some y => n ← num_binop Z.sub Float.sub x y; Ok (of_number n)
  | _, _ => Raise TypeError
  end.

(** [a / b]: true division, always a float.  The operand types are
    checked first.  Two [int]s give the double nearest to their exact
    quotient, which must not be an infinity; otherwise both operands
    become floats and are divided.  A zero divisor is a
    [ZeroDivisionError]. *)
Definition py_truediv (a b : value) : result value :=
  match as_number a, as_number b with
  | Some (NInt x), Some (NInt y) =>
      if (y =? 0)%Z then Raise ZeroDivisionError
      else let q := Float.int_div x y in
           if Float.is_infinite q then Raise OverflowError else Ok (VFloat q)
  | Some x, Some y =>
      x' ← to_float x; y' ← to_float y;
      if Float.is_zero y' then Raise ZeroDivisionError else Ok (VFloat (Float.div x' y'))
  | _, _ => Raise TypeError
  end.

(** [round(v, 2)]: an [int] is returned unchanged, a float is rounded, a
    text has no [__round__]. *)
Definition py_round2 (v : value) : result value :=
  match as_number v with
  | Some (NInt z) => Ok (VInt z)
  | Some (NFloat f) => Ok (VFloat (Float.round2 f))
  | None => Raise TypeError
  end.

(** [float(s)] for a text. *)
Definition float_of_text (s : list ascii) : result float :=
  match Float.of_text s with
  | Some f => Ok f
  | None => Raise ValueError
  end.

(** [float(v)]. *)
Definition py_float (v : value) : result float :=
  match v with
  | VStr s => float_of_text (list_ascii_of_string s)
  | _ => match as_number v with
         | Some n => to_float n
         | None => Raise TypeError
         end
  end.

End Py.
Export Py.


(** ** Regular expressions and [re.search] *)

Module Re.

(** The constructs of the catalog's patterns.  [\d{2}] is written as two
    [Digit]s and a non-capturing group [(?:r)] as [r] itself. *)
Inductive regex : Type :=
| Eps
| Lit (c : ascii)
| Digit
| Space
| Seq (r1 r2 : regex)
| Opt (r : regex)
| Plus (r : regex)
| Named (name : string) (r : regex).

(** The text each named group captured. *)
Abbreviation captures := (gmap string (list ascii)).

(** Backtracking matcher in continuation-passing style: [run r s g k] lets
    [r] consume a prefix of [s] and hands the rest to [k]; when [k] fails
    the next alternative of [r] is tried, the greedy one first.  The loop of
    [Plus] is bounded by the length of the input, which is enough whenever
    each round consumes a character (as every [+] of the catalog does). *)
Fixpoint run {A : Type} (r : regex) (s : list ascii) (g : captures)
    (k : list ascii → captures → option A) : option A :=
  match r with
  | Eps => k s g
  | Lit c =>
      match s with
      | c' :: s' => if Ascii.eqb c c' then k s' g else None
      | [] => None
      end
  | Digit =>
      match s with
      | c' :: s' => if is_digit c' then k s' g else None
      | [] => None
      end
  | Space =>
      match s with
      | c' :: s' => if is_space c' then k s' g else None
      | [] => None
      end
  | Seq r1 r2 => run r1 s g (λ s' g', run r2 s' g' k)
  | Opt r' =>
      match run r' s g k with
      | Some x => Some x
      | None => k s g
      end
  | Plus r' =>
      (fix loop (fuel : nat) (s : list ascii) (g : captures) : option A :=
         match fuel with
         | O => None
         | S fuel' =>
             run r' s g (λ s' g',
               match loop fuel' s' g' with
               | Some x => Some x
               | None => k s' g'
               end)
         end) (S (length s)) s g
  | Named name r' =>
      run r' s g (λ s' g', k s' (<[name := take (length s - length s') s]> g'))
  end.

(** The loop of [Plus r] on its own, and the same loop for a class of
    characters written by recursion on the text, with no bound. *)
Definition plus_loop {A : Type} (r : regex) (k : list ascii → captures → option A)
    : nat → list ascii → captures → option A :=
  fix loop (fuel : nat) (s : list ascii) (g : captures) : option A :=
    match fuel with
    | O => None
    | S fuel' =>
        run r s g (λ s' g',
          match loop fuel' s' g' with
          | Some x => Some x
          | None => k s' g'
          end)
    end.

Fixpoint plus_class {A : Type} (class : ascii → bool) (s : list ascii) (g : captures)
    (k : list ascii → captures → option A) : option A :=
  match s with
  | [] => None
  | c :: s' =>
      if class c then
        match plus_class class s' g k with
        | Some x => Some x
        | None => k s' g
        end
      else None
  end.

(** A match anchored at the head of [s]. *)
Definition match_here (r : regex) (s : list ascii) : option captures :=
  run r s ∅ (λ _ g, Some g).

(** Leftmost match: the start positions are tried from left to right. *)
Fixpoint search_from (r : regex) (s : list ascii) : option captures :=
  match match_here r s with
  | Some g => Some g
  | None =>
      match s with
      | [] => None
      | _ :: s' => search_from r s'
      end
  end.

(** [re.search(pattern, text)] with no flags: [None] when nothing matches,
    [TypeError] when [text] is not a text. *)
Definition search (pattern : regex) (text : value) : result (option captures) :=
  match text with
  | VStr s => Ok (search_from pattern (list_ascii_of_string s))
  | _ => Raise TypeError
  end.

(** [match.group(name)] and [match.groupdict().get(name)]. *)
Definition group (m : captures) (name : string) : result (list ascii) :=
  match m !! name with
  | Some s => Ok s
  | None => Raise IndexError
  end.

Definition groupdict_get (m : captures) (name : string) : option (list ascii) := m !! name.

Definition cat (rs : list regex) : regex := foldr Seq Eps rs.

Fixpoint lit (s : string) : regex :=
  match s with
  | EmptyString => Eps
  | String c s' => Seq (Lit c) (lit s')
  end.

End Re.
Export Re.

(** ** The strategy classes *)

Abbreviation record := (gmap string value).

Record Processor : Type := {
  name : string;
  patterns : list regex;
  calculate_deal : record → captures → result record;
  calculate_coupon : record → captures → result record
}.

(** *** [BuyGetFreeProcessor] (buy_x_get_y.py) *)

Module BuyGetFreeProcessor.

(** [Buy\s+(?P<quantity>\d+),?\s+Get\s+(?P<free>\d+)\s+Free] *)
Definition pattern_free : regex :=
  cat [lit "Buy"; Plus Space; Named "quantity" (Plus Digit); Opt (Lit ",");
       Plus Space; lit "Get"; Plus Space; Named "free" (Plus Digit);
       Plus Space; lit "Free"].

(** [Buy\s+(?P<quantity>\d+),\s+get\s+(?P<free>\d+)\s+(?P<discount>\d+)%\s+off] *)
Definition pattern_discount : regex :=
  cat [lit "Buy"; Plus Space; Named "quantity" (Plus Digit); Lit ",";
       Plus Space; lit "get"; Plus Space; Named "free" (Plus Digit);
       Plus Space; Named "discount" (Plus Digit); Lit "%"; Plus Space; lit "off"].

Definition patterns : list regex := [pattern_free; pattern_discount].

(** [if discount:] on the result of [groupdict().get('discount')]. *)
Definition group_truthy (d : option (list ascii)) : bool :=
  match d with
  | Some (_ :: _) => true
  | _ => false
  end.

Definition calculate_deal (item : record) (m : captures) : result record :=
  let item_data := item in
  quantity ← group m "quantity" ≫= py_int;
  free ← group m "free" ≫= py_int;
  let discount := groupdict_get m "discount" in
  volume_deals_price ←
    (if group_truthy discount then
       discount_decimal ← py_int (default [] discount) ≫= λ d, py_truediv (VInt d) (VInt 100);
       regular_price ← getitem item_data "regular_price";
       full_price_total ← py_mul regular_price (VInt quantity);
       regular_price ← getitem item_data "regular_price";
       keep ← py_sub (VInt 1) discount_decimal;
       discounted ← py_mul regular_price keep;
       discounted_total ← py_mul discounted (VInt free);
       py_add full_price_total discounted_total
     else
       regular_price ← getitem item_data "regular_price";
       py_mul regular_price (VInt quantity));
  let total_quantity := (quantity + free)%Z in
  unit_price ← py_truediv volume_deals_price (VInt total_quantity);
  rounded_volume ← py_round2 volume_deals_price;
  rounded_unit ← py_round2 unit_price;
  Ok (<["digital_coupon_price" := VStr ""]>
        (<["unit_price" := rounded_unit]>
           (<["volume_deals_price" := rounded_volume]> item_data))).

(** [price = item_data.get('unit_price') or item_data.get("sale_price")
    or item_data.get("regular_price", 0)] and
    [price = float(price) if price else 0]. *)
Definition coupon_base_price (item_data : record) : result value :=
  let price :=
    default (VInt 0)
      (py_or (item_data !! "unit_price")
         (py_or (item_data !! "sale_price")
            (Some (get_default item_data "regular_price" (VInt 0))))) in
  if truthy price then q ← py_float price; Ok (VFloat q) else Ok (VInt 0).

Definition calculate_coupon (item : record) (m : captures) : result record :=
  let item_data := item in
  quantity ← group m "quantity" ≫= py_int;
  free ← group m "free" ≫= py_int;
  let discount := groupdict_get m "discount" in
  volume_deals_price ←
    (if group_truthy discount then
       discount_decimal ← py_int (default [] discount) ≫= λ d, py_truediv (VInt d) (VInt 100);
       price ← coupon_base_price item_data;
       full_price_total ← py_mul price (VInt quantity);
       keep ← py_sub (VInt 1) discount_decimal;
       discounted ← py_mul price keep;
       discounted_total ← py_mul discounted (VInt free);
       py_add full_price_total discounted_total
     else
       price ← coupon_base_price item_data;
       py_mul price (VInt quantity));
  let total_quantity := (quantity + free)%Z in
  unit_price ← py_truediv volume_deals_price (VInt total_quantity);
  rounded_unit ← py_round2 unit_price;
  Ok (<["digital_coupon_price" := volume_deals_price]>
        (<["unit_price" := rounded_unit]> item_data)).

Definition processor : Processor :=
  Build_Processor "BuyGetFreeProcessor" patterns calculate_deal calculate_coupon.

End BuyGetFreeProcessor.

(** [float(match.group(name))] *)
Definition group_float (m : captures) (name : string) : result value :=
  s ← group m name; q ← float_of_text s; Ok (VFloat q).

(** [\d+(?:\.\d+)?] and [\d+(?:\.\d{2})?] *)
Definition amount : regex := Seq (Plus Digit) (Opt (Seq (Lit ".") (Plus Digit))).
Definition amount2 : regex := Seq (Plus Digit) (Opt (cat [Lit "."; Digit; Digit])).

(** *** [DollarDiscountProcessor] (dollor_discount.py) *)

Module DollarDiscountProcessor.

(** [\$(?P<discount>\d+(?:\.\d+)?)\s+off] *)
Definition pattern : regex :=
  cat [Lit "$"; Named "discount" amount; Plus Space; lit "off"].

Definition patterns : list regex := [pattern].

Definition calculate_deal (item : record) (m : captures) : result record :=
  let item_data := item in
  discount_value ← group_float m "discount";
  let price := get_default item_data "price" (VInt 0) in
  volume_deals_price ← py_sub price discount_value;
  rounded_volume ← py_round2 volume_deals_price;
  rounded_unit ← py_truediv volume_deals_price (VInt 1) ≫= py_round2;
  Ok (<["digital_coupon_price" := VStr ""]>
        (<["unit_price" := rounded_unit]>
           (<["volume_deals_price" := rounded_volume]> item_data))).

Definition calculate_coupon (item : record) (m : captures) : result record :=
  let item_data := item in
  discount_value ← group_float m "discount";
  let price := get_default item_data "price" (VInt 0) in
  volume_deals_price ← py_sub price discount_value;
  rounded_unit ← py_truediv volume_deals_price (VInt 1) ≫= py_round2;
  rounded_discount ← py_round2 discount_value;
  Ok (<["digital_coupon_price" := rounded_discount]>
        (<["unit_price" := rounded_unit]> item_data)).

Definition processor : Processor :=
  Build_Processor "DollarDiscountProcessor" patterns calculate_deal calculate_coupon.

End DollarDiscountProcessor.

(** *** [PricePerLbProcessor] (price_per_lb.py) *)

Module PricePerLbProcessor.

(** [\$(?P<price_per_lb>\d+(?:\.\d{2})?)\/lb] *)
Definition pattern : regex :=
  cat [Lit "$"; Named "price_per_lb" amount2; Lit "/"; lit "lb"].

Definition patterns : list regex := [pattern].

Definition calculate_deal (item : record) (m : captures) : result record :=
  let item_data := item in
  price_per_lb ← group_float m "price_per_lb";
  let weight := get_default item_data "weight" (VInt 1) in
  total_price ← py_mul price_per_lb weight;
  rounded_volume ← py_round2 total_price;
  rounded_unit ← py_round2 price_per_lb;
  Ok (<["digital_coupon_price" := VStr ""]>
        (<["unit_price" := rounded_unit]>
           (<["volume_deals_price" := rounded_volume]> item_data))).

Definition calculate_coupon (item : record) (m : captures) : result record :=
  let item_data := item in
  price_per_lb ← group_float m "price_per_lb";
  let weight := get_default item_data "weight" (VInt 1) in
  prior_unit_price ← getitem item_data "unit_price";
  reduction ← py_mul price_per_lb weight;
  unit_price ← py_sub prior_unit_price reduction ≫= py_round2;
  Ok (<["digital_coupon_price" := price_per_lb]>
        (<["unit_price" := unit_price]> item_data)).

Definition processor : Processor :=
  Build_Processor "PricePerLbProcessor" patterns calculate_deal calculate_coupon.

End PricePerLbProcessor.

(** *** [SavingsProcessor] (savings.py) *)

Module SavingsProcessor.

(** [Save\s+\$(?P<savings>\d+(?:\.\d{2})?)] *)
Definition pattern : regex :=
  cat [lit "Save"; Plus Space; Lit "$"; Named "savings" amount2].

Definition patterns : list regex := [pattern].

Definition calculate_deal (item : record) (m : captures) : result record :=
  let item_data := item in
  savings_value ← group_float m "savings";
  let price := get_default item_data "price" (VInt 0) in
  volume_deals_price ← py_sub price savings_value;
  rounded_volume ← py_round2 volume_deals_price;
  rounded_unit ← py_truediv volume_deals_price (VInt 1) ≫= py_round2;
  Ok (<["digital_coupon_price" := VStr ""]>
        (<["unit_price" := rounded_unit]>
           (<["volume_deals_price" := rounded_volume]> item_data))).

Definition calculate_coupon (item : record) (m : captures) : result record :=
  let item_data := item in
  savings_value ← group_float m "savings";
  let price := get_default item_data "unit_price" (VInt 0) in
  volume_deals_price ← py_sub price savings_value;
  rounded_unit ← py_truediv volume_deals_price (VInt 1) ≫= py_round2;
  rounded_savings ← py_round2 savings_value;
  Ok (<["digital_coupon_price" := rounded_savings]>
        (<["unit_price" := rounded_unit]> item_data)).

Definition processor : Processor :=
  Build_Processor "SavingsProcessor" patterns calculate_deal calculate_coupon.

End SavingsProcessor.

(** ** The driver: [PromoProcessor] (processor.py) *)

(** What a run leaves behind besides its value: the [re.search] calls it
    made and the lines it sent to the logger, in order. *)
Inductive event : Type :=
| Searched (pattern : regex)
| Info (message : string).

(** A computation that records events and may raise. *)
Definition M (A : Type) : Type := list event * result A.

#[export] Instance M_ret : MRet M := λ A a, ([], Ok a).
#[export] Instance M_bind : MBind M :=
  λ A B f c,
    match c with
    | (t, Ok a) => let '(t', r) := f a in (t ++ t', r)
    | (t, Raise e) => (t, Raise e)
    end.

Definition lift {A : Type} (r : result A) : M A := ([], r).
Definition emit (e : event) : M unit := ([e], Ok ()).
Definition trace {A : Type} (c : M A) : list event := c.1.
Definition outcome {A : Type} (c : M A) : result A := c.2.

Inductive mode : Type := Deal | Coupon.

Definition description_key (md : mode) : string :=
  match md with
  | Deal => "volume_deals_description"
  | Coupon => "digital_coupon_short_description"
  end.

Definition calculate (md : mode) (p : Processor) : record → captures → result record :=
  match md with
  | Deal => calculate_deal p
  | Coupon => calculate_coupon p
  end.

Definition matched_message (md : mode) (p : Processor) (description : string) : string :=
  match md with
  | Deal => "Pattern matched for deals in " +:+ name p +:+ ": " +:+ description
  | Coupon => "Pattern matched for coupons in " +:+ name p +:+ ": " +:+ description
  end.

Definition processed_message (md : mode) (p : Processor) : string :=
  match md with
  | Deal => "Deal processed by " +:+ name p
  | Coupon => "Coupon processed by " +:+ name p
  end.

(** How an f-string renders a field. Only the rendering of a text is
    spelled out; a description that matched a pattern is a text. *)
Definition format_value (v : value) : string :=
  match v with
  | VStr s => s
  | _ => "<number>"
  end.

(** The body of [if deal_match:] (and of [if coupon_match:]): log the
    match, call the strategy, log again.  The first log line prints the
    description of the record as it came in, [item_data]; the strategy
    works on [updated_item]. *)
Definition invoke (md : mode) (p : Processor) (item_data updated_item : record)
    (m : captures) : M record :=
  description ← lift (getitem item_data (description_key md));
  emit (Info (matched_message md p (format_value description)));;
  updated ← lift (calculate md p updated_item m);
  emit (Info (processed_message md p));;
  mret updated.

(** The inner [for pattern in processor.patterns] loop of one pass.
    [Some] is the updated record with the flag set and the loop left by
    [break]; [None] is the loop running out of patterns. *)
Fixpoint try_patterns (md : mode) (p : Processor) (pats : list regex)
    (item_data updated_item : record) : M (option record) :=
  match pats with
  | [] => mret None
  | pattern :: rest =>
      emit (Searched pattern);;
      found ← lift (search pattern
                      (get_default updated_item (description_key md) (VStr "")));
      match found with
      | Some m =>
          updated ← invoke md p item_data updated_item m;
          mret (Some updated)
      | None => try_patterns md p rest item_data updated_item
      end
  end.

(** The outer [for processor_class in cls.subclasses] loop of one pass. *)
Fixpoint run_pass (md : mode) (subclasses : list Processor)
    (item_data updated_item : record) : M record :=
  match subclasses with
  | [] => mret updated_item
  | p :: rest =>
      processed ← try_patterns md p (patterns p) item_data updated_item;
      match processed with
      | Some updated => mret updated
      | None => run_pass md rest item_data updated_item
      end
  end.

(** [process_single_item]: the deal pass, then the coupon pass on its
    result.  [subclasses] is the class attribute that [__init_subclass__]
    fills as the strategy modules are imported. *)
Definition process_single_item (subclasses : list Processor) (item_data : record) : M record :=
  let updated_item := item_data in
  updated_item ← run_pass Deal subclasses item_data updated_item;
  updated_item ← run_pass Coupon subclasses item_data updated_item;
  mret updated_item.

(** *** Store brands and the batch entry point *)

(** [str.casefold] on ASCII text: capitals become small letters. *)
Definition casefold_char (c : ascii) : ascii :=
  let n := nat_of_ascii c in
  if (65 <=? n)%nat && (n <=? 90)%nat then ascii_of_nat (n + 32) else c.

Definition casefold (s : list ascii) : list ascii := map casefold_char s.

Fixpoint starts_with (p s : list ascii) : bool :=
  match p, s with
  | [], _ => true
  | c :: p', d :: s' => Ascii.eqb c d && starts_with p' s'
  | _ :: _, [] => false
  end.

(** [p in s] for two texts. *)
Fixpoint contains (s p : list ascii) : bool :=
  starts_with p s ||
  match s with
  | [] => false
  | _ :: s' => contains s' p
  end.

Definition store_brands : list (string * list string) :=
  [("marianos", ["Private Selection"; "Kroger"; "Simple Truth"; "Simple Truth Organic"]);
   ("target", ["Deal Worthy"; "Good & Gather"; "Market Pantry"; "Favorite Day";
               "Kindfull"; "Smartly"; "Up & Up"]);
   ("jewel", ["Lucerne"; "Signature Select"; "O Organics"; "Open Nature";
              "Waterfront Bistro"; "Primo Taglio"; "Soleil"; "Value Corner";
              "Ready Meals"]);
   ("walmart", ["Clear American"; "Great Value"; "Home Bake Value"; "Marketside";
                "Co Squared"; "Best Occasions"; "Mash-Up Coffee"; "World Table"])].

(** [item["product_title"].casefold()]: a missing title is a [KeyError],
    a title that is not a text has no [casefold]. *)
Definition title_casefolded (item : record) : result (list ascii) :=
  title ← getitem item "product_title";
  match title with
  | VStr s => Ok (casefold (list_ascii_of_string s))
  | _ => Raise AttributeError
  end.

Fixpoint brands_in_title (brands : list string) (item : record) : result (list string) :=
  match brands with
  | [] => Ok []
  | brand :: rest =>
      title ← title_casefolded item;
      found ← brands_in_title rest item;
      Ok (if contains title (casefold (list_ascii_of_string brand))
          then brand :: found else found)
  end.

Definition apply_store_brands (item : record) : result record :=
  store_brands_list ← brands_in_title (concat (map snd store_brands)) item;
  Ok (<["brandStatus" := VBool (existsb (λ b, negb (String.eqb b "")) store_brands_list)]> item).

(** The argument of [process_item]: one record or a list of them. *)
Inductive batch : Type :=
| Single (item : record)
| Many (items : list record).

(** The list comprehension
    [[cls.apply_store_brands(cls.process_single_item(item)) for item in item_data]]. *)
Fixpoint process_each (subclasses : list Processor) (items : list record) : M (list record) :=
  match items with
  | [] => mret []
  | item :: rest =>
      processed ← process_single_item subclasses item;
      tagged ← lift (apply_store_brands processed);
      others ← process_each subclasses rest;
      mret (tagged :: others)
  end.

(** [process_item]: [results] is the class-level list the call extends;
    the value is the list after the call.  When the call raises, the list
    was not touched. *)
Definition process_item (subclasses : list Processor) (results : list record)
    (item_data : batch) : M (list record) :=
  match item_data with
  | Many items =>
      new ← process_each subclasses items;
      mret (results ++ new)
  | Single item =>
      processed ← process_single_item subclasses item;
      tagged ← lift (apply_store_brands processed);
      mret (results ++ [tagged])
  end.

(** Modelled from the spec: the order in which the four strategy classes
    are registered.  The package files that import the strategy modules
    are not among the sources; the order is that of the strategy catalog
    (Buy N Get M Free, Dollar-off, Price-per-weight, Savings). *)
Definition subclasses : list Processor :=
  [BuyGetFreeProcessor.processor; DollarDiscountProcessor.processor;
   PricePerLbProcessor.processor; SavingsProcessor.processor].

(** The catalog as one list of entries, in the order the two nested loops
    visit them. *)
Definition entries (catalog : list Processor) : list (Processor * regex) :=
  concat (map (λ p, map (pair p) (patterns p)) catalog).

(** ** Declarative reading of the patterns *)

(** [sem r w g g']: the pattern [r] can match exactly the text [w], taking
    the captures from [g] to [g']. *)
Inductive sem : regex → list ascii → captures → captures → Prop :=
| sem_eps g : sem Eps [] g g
| sem_lit c g : sem (Lit c) [c] g g
| sem_digit c g : is_digit c = true → sem Digit [c] g g
| sem_space c g : is_space c = true → sem Space [c] g g
| sem_seq r1 r2 w1 w2 g g1 g2 :
    sem r1 w1 g g1 → sem r2 w2 g1 g2 → sem (Seq r1 r2) (w1 ++ w2) g g2
| sem_opt_taken r w g g' : sem r w g g' → sem (Opt r) w g g'
| sem_opt_skipped r g : sem (Opt r) [] g g
| sem_plus_last r w g g' : sem r w g g' → sem (Plus r) w g g'
| sem_plus_more r w1 w2 g g1 g2 :
    sem r w1 g g1 → sem (Plus r) w2 g1 g2 → sem (Plus r) (w1 ++ w2) g g2
| sem_named name r w g g' :
    sem r w g g' → sem (Named name r) w g (<[name := w]> g').

(** The characters every text matched by [r] must hold, exactly as the
    pattern writes them. *)
Fixpoint required (r : regex) : list ascii :=
  match r with
  | Lit c => [c]
  | Seq r1 r2 => required r1 ++ required r2
  | Plus r' => required r'
  | Named _ r' => required r'
  | Eps | Digit | Space | Opt _ => []
  end.

(** [text] holds a match of [pattern] with captures [m]. *)
Definition found (pattern : regex) (text : string) (m : captures) : Prop :=
  search_from pattern (list_ascii_of_string text) = Some m.

Definition no_match (pattern : regex) (text : string) : Prop :=
  search_from pattern (list_ascii_of_string text) = None.

(** The entry [(p, pattern)] is the first of the catalog, in registration
    order, whose pattern matches [text]. *)
Definition selects (catalog : list Processor) (text : string)
    (p : Processor) (pattern : regex) (m : captures) : Prop :=
  ∃ earlier later,
    entries catalog = earlier ++ (p, pattern) :: later ∧
    Forall (λ e, no_match e.2 text) earlier ∧
    found pattern text m.

Definition selects_none (catalog : list Processor) (text : string) : Prop :=
  Forall (λ e, no_match e.2 text) (entries catalog).

(** The first entry of a list of catalog entries whose pattern matches,
    with its captures, and the patterns searched until then. *)
Fixpoint first_entry (es : list (Processor * regex)) (s : list ascii)
    : option (Processor * regex * captures) :=
  match es with
  | [] => None
  | (p, pattern) :: rest =>
      match search_from pattern s with
      | Some m => Some (p, pattern, m)
      | None => first_entry rest s
      end
  end.

Fixpoint tried (es : list (Processor * regex)) (s : list ascii) : list regex :=
  match es with
  | [] => []
  | (_, pattern) :: rest =>
      match search_from pattern s with
      | Some _ => [pattern]
      | None => pattern :: tried rest s
      end
  end.

(** A computation preceded by a run of [re.search] calls. *)
Definition after_search {A : Type} (rs : list regex) (c : M A) : M A :=
  (map Searched rs ++ c.1, c.2).

(** The description a pass searches: [updated_item.get(key, "")]. *)
Definition description (md : mode) (item : record) : value :=
  get_default item (description_key md) (VStr "").

(** The [re.search] calls among the events of a run. *)
Definition searches (t : list event) : list regex :=
  omap (λ e, match e with Searched r => Some r | Info _ => None end) t.

Definition messages (t : list event) : list string :=
  omap (λ e, match e with Info s => Some s | Searched _ => None end) t.

(** A non-empty run of decimal digits, and an amount as the patterns
    capture it: digits, optionally a point and more digits. *)
Definition digits (w : list ascii) : Prop := w ≠ [] ∧ all_digits w = true.

Definition numeral (w : list ascii) : Prop :=
  ∃ ip, digits ip ∧ (w = ip ∨ ∃ fp, digits fp ∧ w = ip ++ "."%char :: fp).

(** The characters of a captured amount: a digit or the point. *)
Definition amount_char (c : ascii) : bool := is_digit c || Ascii.eqb c ".".

(** The names of the groups of a pattern. *)
Fixpoint groups (r : regex) : list string :=
  match r with
  | Seq r1 r2 => groups r1 ++ groups r2
  | Opt r' | Plus r' => groups r'
  | Named name r' => name :: groups r'
  | Eps | Lit _ | Digit | Space => []
  end.

Definition is_number (v : value) : Prop := ∃ n, as_number v = Some n.

(** A float of two decimal places: the double nearest to [c / 100] for a
    whole number [c], with either sign. *)
Definition two_decimals (f : float) : Prop :=
  ∃ (s : bool) (c : Z), (0 ≤ c)%Z ∧ f = Float.of_ratio s c 100.

(** A value rounded to two decimal places: an [int]; a float of two
    decimal places; or an infinity or the not-a-number, which [round]
    hands back as it is. *)
Definition rounded (v : value) : Prop :=
  ∃ n, as_number v = Some n ∧
    match n with
    | NInt _ => True
    | NFloat f => two_decimals f ∨ Float.is_infinite f = true ∨ f = S754_nan
    end.

(** The three fields the strategies compute. *)
Definition computed_field (k : string) : Prop :=
  k = "volume_deals_price" ∨ k = "unit_price" ∨ k = "digital_coupon_price".

(** [str.upper] on ASCII text: small letters become capitals. *)
Definition upper_char (c : ascii) : ascii :=
  let n := nat_of_ascii c in
  if (97 <=? n)%nat && (n <=? 122)%nat then ascii_of_nat (n - 32) else c.

Definition upper (s : string) : string :=
  string_of_list_ascii (map upper_char (list_ascii_of_string s)).

Definition is_small_letter (c : ascii) : bool :=
  let n := nat_of_ascii c in (97 <=? n)%nat && (n <=? 122)%nat.

(** Two texts that differ at most in the case of their letters. *)
Definition same_up_to_case (s t : string) : Prop :=
  casefold (list_ascii_of_string s) = casefold (list_ascii_of_string t).

(** A field that [x or ...] passes over (absent, zero, empty text or
    [False]) and a field it takes. *)
Definition falsy_field (item : record) (k : string) : Prop :=
  match item !! k with
  | Some v => truthy v = false
  | None => True
  end.

Definition truthy_field (item : record) (k : string) (v : value) : Prop :=
  item !! k = Some v ∧ truthy v = true.

(** The value the coupon base price is read from: the first of
    [unit_price], [sale_price], [regular_price] that is truthy, if any. *)
Inductive base_choice (item : record) : option value → Prop :=
| choose_unit v :
    truthy_field item "unit_price" v → base_choice item (Some v)
| choose_sale v :
    falsy_field item "unit_price" → truthy_field item "sale_price" v →
    base_choice item (Some v)
| choose_regular v :
    falsy_field item "unit_price" → falsy_field item "sale_price" →
    truthy_field item "regular_price" v → base_choice item (Some v)
| choose_none :
    falsy_field item "unit_price" → falsy_field item "sale_price" →
    falsy_field item "regular_price" → base_choice item None.

(** Every brand name of [store_brands], and a text that occurs inside
    another. *)
Definition all_brands : list string := concat (map snd store_brands).

Definition occurs_in (p s : list ascii) : Prop := ∃ pre post, s = pre ++ p ++ post.




(** ** Properties of the matcher *)

Section Matcher.

Context {A : Type}.
Implicit Types (k : list ascii → captures → option A) (s w : list ascii) (g : captures).

Lemma run_Plus r s g k : run (Plus r) s g k = plus_loop r k (S (length s)) s g.
Proof. reflexivity. Qed.

(** The bound on the loop of [Plus] is never what stops it: on a class
    of characters the bounded loop is the unbounded one. *)
Lemma plus_loop_digit k : ∀ fuel s g,
  length s < fuel → plus_loop Digit k fuel s g = plus_class is_digit s g k.
Proof.
  induction fuel as [|fuel IH]; intros s g Hlen; [lia|].
  destruct s as [|c s]; simpl; [done|].
  destruct (is_digit c); [|done]. rewrite IH by (simpl in Hlen; lia). done.
Qed.

Lemma plus_loop_space k : ∀ fuel s g,
  length s < fuel → plus_loop Space k fuel s g = plus_class is_space s g k.
Proof.
  induction fuel as [|fuel IH]; intros s g Hlen; [lia|].
  destruct s as [|c s]; simpl; [done|].
  destruct (is_space c); [|done]. rewrite IH by (simpl in Hlen; lia). done.
Qed.

Lemma run_plus_digit s g k : run (Plus Digit) s g k = plus_class is_digit s g k.
Proof. rewrite run_Plus. apply plus_loop_digit. lia. Qed.

Lemma run_plus_space s g k : run (Plus Space) s g k = plus_class is_space s g k.
Proof. rewrite run_Plus. apply plus_loop_space. lia. Qed.

Lemma take_captured w s : take (length (w ++ s) - length s) (w ++ s) = w.
Proof.
  rewrite length_app. replace (length w + length s - length s) with (length w) by lia.
  by rewrite take_app_length.
Qed.

(** Whatever the matcher accepts, the declarative reading accepts: a
    successful [run] splits its input into a matched text and the rest
    that the continuation accepted. *)
Lemma run_sound r : ∀ s g k x,
  run r s g k = Some x →
  ∃ w s' g', s = w ++ s' ∧ sem r w g g' ∧ k s' g' = Some x.
Proof.
  induction r as [| c | | | r1 IH1 r2 IH2 | r IH | r IH | name r IH]; intros s g k x H;
    [simpl in H .. | | simpl in H].
  - exists [], s, g. eauto using sem.
  - destruct s as [|c' s']; [done|]. destruct (Ascii.eqb c c') eqn:E; [|done].
    apply Ascii.eqb_eq in E as <-. exists [c], s', g. eauto using sem.
  - destruct s as [|c' s']; [done|]. destruct (is_digit c') eqn:E; [|done].
    exists [c'], s', g. eauto using sem.
  - destruct s as [|c' s']; [done|]. destruct (is_space c') eqn:E; [|done].
    exists [c'], s', g. eauto using sem.
  - apply IH1 in H as (w1 & s1 & g1 & -> & S1 & H).
    apply IH2 in H as (w2 & s2 & g2 & -> & S2 & H).
    exists (w1 ++ w2), s2, g2. rewrite <- app_assoc. eauto using sem.
  - destruct (run r s g k) eqn:E.
    + inversion H; subst. apply IH in E as (w & s' & g' & -> & S & E).
      exists w, s', g'. eauto using sem.
    + exists [], s, g. eauto using sem.
  - rewrite run_Plus in H.
    revert H. generalize (S (length s)). intros fuel. revert s g.
    induction fuel as [|fuel IHf]; intros s g H; [discriminate H|].
    apply IH in H as (w1 & s1 & g1 & -> & S1 & H).
    match type of H with match ?l with _ => _ end = _ => destruct l eqn:E end.
    + inversion H; subst. apply IHf in E as (w2 & s2 & g2 & -> & S2 & E).
      exists (w1 ++ w2), s2, g2. rewrite <- app_assoc. eauto using sem.
    + exists w1, s1, g1. eauto using sem.
  - apply IH in H as (w & s' & g' & -> & S & H).
    rewrite take_captured in H. exists w, s', (<[name := w]> g'). eauto using sem.
Qed.

End Matcher.

Lemma match_here_sound r s m :
  match_here r s = Some m → ∃ w s', s = w ++ s' ∧ sem r w ∅ m.
Proof.
  intros H. apply run_sound in H as (w & s' & g' & -> & S & H).
  inversion H; subst. eauto.
Qed.

Lemma search_from_sound r s m :
  search_from r s = Some m → ∃ pre w post, s = pre ++ w ++ post ∧ sem r w ∅ m.
Proof.
  induction s as [|c s IH]; simpl; intros H.
  - destruct (match_here r []) eqn:E; [|done]. inversion H; subst.
    apply match_here_sound in E as (w & s' & -> & S). exists [], w, s'. eauto.
  - destruct (match_here r (c :: s)) eqn:E.
    + inversion H; subst. apply match_here_sound in E as (w & s' & -> & S).
      exists [], w, s'. eauto.
    + apply IH in H as (pre & w & post & -> & S). exists (c :: pre), w, post. eauto.
Qed.

Lemma sem_required r w g g' : sem r w g g' → ∀ c, c ∈ required r → c ∈ w.
Proof.
  induction 1; simpl; intros c0 Hc; try (by apply elem_of_nil in Hc).
  - by apply list_elem_of_singleton in Hc as ->; left.
  - apply elem_of_app in Hc as [?|?]; apply elem_of_app; eauto.
  - eauto.
  - apply elem_of_app; eauto.
  - eauto.
Qed.

(** A text that lacks a character the pattern requires holds no match. *)
Lemma search_from_required r s c :
  c ∈ required r → c ∉ s → search_from r s = None.
Proof.
  intros Hc Hs. destruct (search_from r s) as [m|] eqn:E; [|done].
  apply search_from_sound in E as (pre & w & post & -> & S).
  exfalso. apply Hs. apply elem_of_app. right. apply elem_of_app. left.
  eapply sem_required; eauto.
Qed.

(** *** What the groups of the catalog's patterns capture *)

Lemma sem_no_groups r w g g' : sem r w g g' → groups r = [] → g' = g.
Proof.
  induction 1; simpl; intros Hg; try done.
  - apply app_eq_nil in Hg as [? ?]. rewrite IHsem2, IHsem1; auto.
  - auto.
  - auto.
  - rewrite IHsem2, IHsem1; auto.
Qed.

Ltac invert H := inversion H; subst; clear H.

(** Close an equation between closed terms by evaluation. *)
Ltac by_vm :=
  unfold found, no_match; cbv beta;
  lazymatch goal with
  | |- ?x = ?y => exact (@eq_refl _ y <: x = y)
  end.

(** Take apart a derivation over a pattern whose shape is known. *)
Ltac sem_split :=
  repeat match goal with
    | H : sem Eps _ _ _ |- _ => invert H
    | H : sem (Lit _) _ _ _ |- _ => invert H
    | H : sem Digit _ _ _ |- _ => invert H
    | H : sem (Seq _ _) _ _ _ |- _ => invert H
    | H : sem (Named _ _) _ _ _ |- _ => invert H
    end.

Lemma sem_plus_digit w g g' : sem (Plus Digit) w g g' → g' = g ∧ digits w.
Proof.
  remember (Plus Digit) as r eqn:Er. induction 1; inversion Er; subst.
  - sem_split. repeat split; [done|]. simpl. by rewrite andb_true_r.
  - sem_split. destruct (IHsem2 eq_refl) as (-> & _ & Hd).
    repeat split; [done|]. simpl. rewrite Hd. by rewrite andb_true_r.
Qed.

Lemma sem_lit_text t w g g' : sem (lit t) w g g' → g' = g ∧ w = list_ascii_of_string t.
Proof.
  revert w g g'. induction t as [|c t IH]; simpl; intros w g g' H.
  - by invert H.
  - invert H. sem_split.
    match goal with H : sem (lit t) _ _ _ |- _ => apply IH in H as [-> ->] end. done.
Qed.

Lemma sem_amount w g g' : sem amount w g g' → g' = g ∧ numeral w.
Proof.
  intros H. split; [by eapply sem_no_groups|].
  unfold amount in H. sem_split.
  match goal with H : sem (Plus Digit) _ _ _ |- _ => apply sem_plus_digit in H as [-> Hip] end.
  match goal with H : sem (Opt _) _ _ _ |- _ => invert H end.
  - sem_split.
    match goal with H : sem (Plus Digit) _ _ _ |- _ => apply sem_plus_digit in H as [-> Hfp] end.
    eexists. split; [exact Hip|]. right. eexists. split; [exact Hfp|]. reflexivity.
  - eexists. split; [exact Hip|]. left. by rewrite app_nil_r.
Qed.

Lemma sem_amount2 w g g' : sem amount2 w g g' → g' = g ∧ numeral w.
Proof.
  intros H. split; [by eapply sem_no_groups|].
  unfold amount2 in H. sem_split.
  match goal with H : sem (Plus Digit) _ _ _ |- _ => apply sem_plus_digit in H as [-> Hip] end.
  match goal with H : sem (Opt _) _ _ _ |- _ => invert H end.
  - simpl in *. sem_split.
    eexists. split; [exact Hip|]. right. eexists. split; [|reflexivity].
    split; [done|]. simpl.
    repeat match goal with H : is_digit _ = true |- _ => rewrite H; clear H end. done.
  - eexists. split; [exact Hip|]. left. by rewrite app_nil_r.
Qed.

Ltac sem_leaves :=
  repeat match goal with
    | H : sem (Plus Digit) _ _ _ |- _ => apply sem_plus_digit in H as [-> ?]
    | H : sem (Plus Space) _ _ _ |- _ => apply sem_no_groups in H; [subst|reflexivity]
    | H : sem (Opt (Lit _)) _ _ _ |- _ => apply sem_no_groups in H; [subst|reflexivity]
    | H : sem amount _ _ _ |- _ => apply sem_amount in H as [-> ?]
    | H : sem amount2 _ _ _ |- _ => apply sem_amount2 in H as [-> ?]
    end.

Lemma pattern_free_captures s m :
  search_from BuyGetFreeProcessor.pattern_free s = Some m →
  ∃ qs fs, digits qs ∧ digits fs ∧ m = <["free" := fs]> (<["quantity" := qs]> ∅).
Proof.
  intros H. apply search_from_sound in H as (pre & w & post & _ & H).
  unfold BuyGetFreeProcessor.pattern_free, cat in H. simpl in H.
  sem_split. sem_leaves. eauto.
Qed.

Lemma pattern_discount_captures s m :
  search_from BuyGetFreeProcessor.pattern_discount s = Some m →
  ∃ qs fs ds, digits qs ∧ digits fs ∧ digits ds ∧
    m = <["discount" := ds]> (<["free" := fs]> (<["quantity" := qs]> ∅)).
Proof.
  intros H. apply search_from_sound in H as (pre & w & post & _ & H).
  unfold BuyGetFreeProcessor.pattern_discount, cat in H. simpl in H.
  sem_split. sem_leaves. eauto 10.
Qed.

Lemma dollar_pattern_captures s m :
  search_from DollarDiscountProcessor.pattern s = Some m →
  ∃ w, numeral w ∧ m = <["discount" := w]> ∅.
Proof.
  intros H. apply search_from_sound in H as (pre & w & post & _ & H).
  unfold DollarDiscountProcessor.pattern, cat in H. simpl in H.
  sem_split. sem_leaves. eauto.
Qed.

Lemma lb_pattern_captures s m :
  search_from PricePerLbProcessor.pattern s = Some m →
  ∃ w, numeral w ∧ m = <["price_per_lb" := w]> ∅.
Proof.
  intros H. apply search_from_sound in H as (pre & w & post & _ & H).
  unfold PricePerLbProcessor.pattern, cat in H. simpl in H.
  sem_split. sem_leaves. eauto.
Qed.

Lemma savings_pattern_captures s m :
  search_from SavingsProcessor.pattern s = Some m →
  ∃ w, numeral w ∧ m = <["savings" := w]> ∅.
Proof.
  intros H. apply search_from_sound in H as (pre & w & post & _ & H).
  unfold SavingsProcessor.pattern, cat in H. simpl in H.
  sem_split. sem_leaves. eauto.
Qed.

(** *** Reading the captured numerals *)

Lemma digit_not_space c : is_digit c = true → is_space c = false.
Proof.
  unfold is_digit, is_space. intros H. apply andb_true_iff in H as [H1 H2].
  apply Nat.leb_le in H1, H2. apply orb_false_iff. split; [apply orb_false_iff; split|].
  - apply Nat.eqb_neq. lia.
  - apply andb_false_iff. right. apply Nat.leb_gt. lia.
  - apply andb_false_iff. right. apply Nat.leb_gt. lia.
Qed.

Lemma digit_not_char c (d : ascii) :
  is_digit d = false → is_digit c = true → Ascii.eqb c d = false.
Proof.
  intros Hd Hc. destruct (Ascii.eqb_spec c d) as [->|]; [congruence|done].
Qed.

Lemma digit_val_range c : is_digit c = true → (0 ≤ digit_val c ≤ 9)%Z.
Proof.
  unfold is_digit, digit_val. intros H. apply andb_true_iff in H as [H1 H2].
  apply Nat.leb_le in H1, H2. lia.
Qed.

Lemma fold_digits_nonneg w : ∀ acc,
  (0 ≤ acc)%Z → all_digits w = true →
  (0 ≤ fold_left (λ a c, a * 10 + digit_val c) w acc)%Z.
Proof.
  induction w as [|c w IH]; simpl; intros acc Ha Hw; [done|].
  apply andb_true_iff in Hw as [Hc Hw]. apply IH; [|done].
  pose proof (digit_val_range c Hc). lia.
Qed.

Lemma digits_val_nonneg w : all_digits w = true → (0 ≤ digits_val w)%Z.
Proof. apply fold_digits_nonneg. done. Qed.

Lemma digit_not_blank c : is_digit c = true → is_blank c = false.
Proof.
  unfold is_digit, is_blank. intros H. apply andb_true_iff in H as [H1 H2].
  apply Nat.leb_le in H1, H2. apply orb_false_iff. split.
  - apply Nat.eqb_neq. lia.
  - apply andb_false_iff. right. apply Nat.leb_gt. lia.
Qed.

(** [int] reads a captured run of digits unless the run is longer than
    the interpreter's limit. *)
Lemma py_int_digits w :
  digits w → (length w ≤ int_max_str_digits)%nat → py_int w = Ok (digits_val w).
Proof.
  intros [Hne Hd] Hl. unfold py_int. destruct w; [done|]. rewrite Hd.
  apply Nat.leb_le in Hl. by rewrite Hl.
Qed.

Lemma py_int_too_long w :
  (int_max_str_digits < length w)%nat → py_int w = Raise ValueError.
Proof.
  intros Hl. unfold py_int. destruct w; [done|].
  apply Nat.leb_gt in Hl. rewrite Hl. by rewrite andb_false_r.
Qed.

Lemma py_int_cases w :
  digits w →
  (py_int w = Ok (digits_val w) ∧ (length w ≤ int_max_str_digits)%nat) ∨
  (py_int w = Raise ValueError ∧ (int_max_str_digits < length w)%nat).
Proof.
  intros H. destruct (le_lt_dec (length w) int_max_str_digits) as [Hl|Hl].
  - left. split; [by apply py_int_digits|done].
  - right. split; [by apply py_int_too_long|done].
Qed.

Lemma py_int_ok w z : py_int w = Ok z → z = digits_val w.
Proof.
  unfold py_int. destruct w; [done|].
  destruct (all_digits _ && _); intros H; by invert H.
Qed.

Lemma digits_head w : digits w → ∃ c t, w = c :: t ∧ is_digit c = true.
Proof.
  intros [Hne Hd]. destruct w as [|c t]; [done|].
  apply andb_true_iff in Hd as [Hc _]. eauto.
Qed.

Lemma digits_last w : digits w → ∃ t c, w = t ++ [c] ∧ is_digit c = true.
Proof.
  intros [Hne Hd]. destruct (exists_last Hne) as (t & c & ->).
  exists t, c. split; [done|]. unfold all_digits in Hd.
  rewrite forallb_app in Hd. apply andb_true_iff in Hd as [_ Hd].
  simpl in Hd. by apply andb_true_iff in Hd as [Hd _].
Qed.

Lemma split_at_dot_digits ip :
  all_digits ip = true → split_at_dot ip = (ip, None).
Proof.
  induction ip as [|c ip IH]; simpl; intros H; [done|].
  apply andb_true_iff in H as [Hc H].
  rewrite (digit_not_char c "."%char eq_refl Hc), (IH H). done.
Qed.

Lemma split_at_dot_point ip fp :
  all_digits ip = true → split_at_dot (ip ++ "."%char :: fp) = (ip, Some fp).
Proof.
  induction ip as [|c ip IH]; simpl; intros H; [done|].
  apply andb_true_iff in H as [Hc H].
  rewrite (digit_not_char c "."%char eq_refl Hc), (IH H). done.
Qed.

Lemma numeral_ends w :
  numeral w →
  (∃ c t, w = c :: t ∧ is_digit c = true) ∧ (∃ t c, w = t ++ [c] ∧ is_digit c = true).
Proof.
  intros (ip & Hip & [-> | (fp & Hfp & ->)]).
  - split; [by apply digits_head | by apply digits_last].
  - split.
    + destruct (digits_head ip Hip) as (c & t & -> & Hc). exists c. eauto.
    + destruct (digits_last fp Hfp) as (t & c & -> & Hc).
      exists (ip ++ "."%char :: t), c. split; [|done]. by rewrite <- app_assoc.
Qed.

Lemma strip_numeral w : numeral w → strip w = w.
Proof.
  intros H. destruct (numeral_ends w H) as [(c & t & E1 & Hc) (t' & d & E2 & Hd)].
  unfold strip.
  assert (L1 : lstrip w = w).
  { rewrite E1. simpl. by rewrite (digit_not_blank c Hc). }
  rewrite L1. rewrite E2 at 1. rewrite rev_app_distr. simpl.
  rewrite (digit_not_blank d Hd).
  change (d :: rev t') with (rev [d] ++ rev t'). rewrite <- rev_app_distr.
  rewrite rev_involutive. done.
Qed.

Lemma numeral_chars w : numeral w → forallb amount_char w = true.
Proof.
  assert (D : ∀ ds, all_digits ds = true → forallb amount_char ds = true).
  { induction ds as [|c ds IH]; simpl; [done|]. intros H.
    apply andb_true_iff in H as [Hc H]. unfold amount_char at 1. rewrite Hc. simpl. auto. }
  intros (ip & [_ Hip] & [-> | (fp & [_ Hfp] & ->)]); [by apply D|].
  rewrite forallb_app. simpl. rewrite (D ip Hip), (D fp Hfp). done.
Qed.

Lemma amount_char_cases c :
  amount_char c = true →
  Ascii.eqb c "_" = false ∧ Ascii.eqb c "e" = false ∧ Ascii.eqb c "E" = false ∧
  Ascii.eqb c "-" = false ∧ Ascii.eqb c "+" = false.
Proof.
  unfold amount_char. intros H. apply orb_true_iff in H as [H|H].
  - repeat apply conj; by apply digit_not_char.
  - apply Ascii.eqb_eq in H as ->. done.
Qed.

Lemma without_underscores_amount w : ∀ prev,
  Ascii.eqb prev "_" = false → forallb amount_char w = true →
  without_underscores prev w = Some w.
Proof.
  induction w as [|c w IH]; simpl; intros prev Hp Hw; [by rewrite Hp|].
  apply andb_true_iff in Hw as [Hc Hw].
  destruct (amount_char_cases c Hc) as (Hu & _).
  rewrite Hu, Hp. simpl. by rewrite (IH c Hu Hw).
Qed.

Lemma split_at_exponent_amount w :
  forallb amount_char w = true → split_at_exponent w = (w, None).
Proof.
  induction w as [|c w IH]; simpl; intros Hw; [done|].
  apply andb_true_iff in Hw as [Hc Hw].
  destruct (amount_char_cases c Hc) as (_ & He & HE & _).
  by rewrite He, HE, (IH Hw).
Qed.

Lemma mantissa_numeral w :
  numeral w →
  ∃ n places, Float.mantissa w = Some (n, places) ∧ (0 ≤ n)%Z.
Proof.
  intros (ip & [Hne Hip] & [-> | (fp & [Hnf Hfp] & ->)]); unfold Float.mantissa.
  - rewrite (split_at_dot_digits ip Hip), Hip. destruct ip; [done|].
    eexists _, _. split; [done|]. by apply digits_val_nonneg.
  - rewrite (split_at_dot_point ip fp Hip), Hip, Hfp. destruct ip; [done|]. simpl.
    eexists _, _. split; [done|]. apply digits_val_nonneg.
    unfold all_digits in *. rewrite app_comm_cons, forallb_app. by rewrite Hip, Hfp.
Qed.

Lemma word_of_digit c t (word : string) :
  is_digit c = true → is_digit (default "0"%char (head (list_ascii_of_string word))) = false →
  String.eqb (string_of_list_ascii (map lower_char (c :: t))) word = false.
Proof.
  intros Hc Hw. apply String.eqb_neq. intros E.
  assert (L : lower_char c = c).
  { unfold lower_char, is_digit in *. apply andb_true_iff in Hc as [H1 H2].
    apply Nat.leb_le in H1, H2.
    destruct ((65 <=? nat_of_ascii c)%nat) eqn:E1; [|done].
    apply Nat.leb_le in E1. lia. }
  simpl in E. rewrite L in E. subst word. simpl in Hw. congruence.
Qed.

(** [float] reads every amount the patterns capture: the result is the
    double nearest to the decimal number written, which is not negative. *)
Lemma float_of_numeral w :
  numeral w →
  ∃ n scale, float_of_text w = Ok (Float.of_decimal false n scale) ∧ (0 ≤ n)%Z.
Proof.
  intros H. unfold float_of_text, Float.of_text. rewrite (strip_numeral w H).
  rewrite (without_underscores_amount w "000"%char eq_refl (numeral_chars w H)). simpl.
  destruct (numeral_ends w H) as [(c & t & E1 & Hc) _].
  destruct (mantissa_numeral w H) as (n & places & Hm & Hn).
  pose proof (split_at_exponent_amount w (numeral_chars w H)) as He.
  subst w. unfold split_sign.
  rewrite (digit_not_char c "-"%char eq_refl Hc), (digit_not_char c "+"%char eq_refl Hc).
  rewrite (word_of_digit c t "inf" Hc eq_refl), (word_of_digit c t "infinity" Hc eq_refl),
    (word_of_digit c t "nan" Hc eq_refl).
  simpl orb. cbv iota. rewrite He, Hm. simpl. eauto.
Qed.

Lemma of_ratio_non_negative n d : Float.non_negative (Float.of_ratio false n d).
Proof.
  unfold Float.of_ratio. destruct (n <=? 0)%Z; [done|]. cbv zeta.
  destruct (Float.scaled n d _ =? 2 ^ 53)%Z.
  - change (2 ^ 52)%Z with (Zpos (2 ^ 52)). cbv iota beta. by destruct (_ <=? 971)%Z.
  - destruct (Float.scaled n d _); [done| |done]. by destruct (_ <=? 971)%Z.
Qed.

Lemma of_decimal_non_negative n scale : Float.non_negative (Float.of_decimal false n scale).
Proof. unfold Float.of_decimal. destruct (0 <=? scale)%Z; apply of_ratio_non_negative. Qed.

(** *** Rounding to the nearest double *)

(** [div_half_even n d] is within a half of [n / d]. *)
Lemma div_half_even_error n d :
  (0 < d)%Z → (Z.abs (2 * n - 2 * d * Float.div_half_even n d) ≤ d)%Z.
Proof.
  intros Hd. unfold Float.div_half_even.
  pose proof (Z.div_mod n d ltac:(lia)) as E.
  pose proof (Z.mod_pos_bound n d Hd) as B.
  destruct (Z.compare_spec (2 * (n mod d)) d) as [C|C|C]; [destruct (Z.even (n / d))| |]; nia.
Qed.

Lemma scaled_error n d e :
  (0 < d)%Z → (e ≤ 0)%Z →
  (Z.abs (2 * (n * 2 ^ (- e)) - 2 * d * Float.scaled n d e) ≤ d)%Z.
Proof.
  intros Hd He. unfold Float.scaled. destruct (0 <=? e)%Z eqn:E.
  - apply Z.leb_le in E. assert (e = 0%Z) as -> by lia.
    change (2 ^ (- 0))%Z with 1%Z. change (2 ^ 0)%Z with 1%Z. rewrite !Z.mul_1_r.
    by apply div_half_even_error.
  - by apply div_half_even_error.
Qed.

(** A finite result of [of_ratio] with a binary point lies within half a
    unit of its last place of the exact quotient. *)
Lemma of_ratio_error s n d s' m e :
  (0 < d)%Z → Float.of_ratio s n d = S754_finite s' m e → (e ≤ 0)%Z →
  (Z.abs (2 * (n * 2 ^ (- e)) - 2 * d * Zpos m) ≤ d)%Z.
Proof.
  intros Hd H He. unfold Float.of_ratio in H.
  destruct (n <=? 0)%Z; [done|]. cbv zeta in H.
  set (e0 := Z.max (Float.log2_ratio n d - 52) (-1074)) in H.
  destruct (Float.scaled n d e0 =? 2 ^ 53)%Z eqn:Em.
  - apply Z.eqb_eq in Em. change (2 ^ 52)%Z with (Zpos (2 ^ 52)) in H. cbv iota beta in H.
    destruct (e0 + 1 <=? 971)%Z; [|done].
    injection H as _ Hm Hee. clearbody e0. subst m e.
    pose proof (scaled_error n d e0 Hd ltac:(lia)) as B. rewrite Em in B.
    replace (- e0)%Z with (1 + - (e0 + 1))%Z in B by lia.
    rewrite Z.pow_add_r in B by lia. change (2 ^ 1)%Z with 2%Z in B.
    change (Zpos (2 ^ 52)) with (2 ^ 52)%Z. change (2 ^ 53)%Z with (2 * 2 ^ 52)%Z in B.
    lia.
  - destruct (Float.scaled n d e0) as [|p|p] eqn:Es; [done| |done].
    destruct (e0 <=? 971)%Z; [|done].
    injection H as _ Hm Hee. clearbody e0. subst m e.
    pose proof (scaled_error n d e0 Hd He) as B. by rewrite Es in B.
Qed.

Lemma group_float_numeral name w :
  numeral w →
  ∃ X, group_float (<[name := w]> ∅) name = Ok (VFloat X) ∧ Float.non_negative X.
Proof.
  intros H. destruct (float_of_numeral w H) as (n & scale & Hq & _).
  exists (Float.of_decimal false n scale). split; [|apply of_decimal_non_negative].
  unfold group_float, group. rewrite lookup_insert_eq. simpl. by rewrite Hq.
Qed.

(** ** Properties of the driver *)

Lemma is_ok_returns {A : Type} (r : result A) : is_ok r = true → returns r.
Proof. destruct r as [a|e]; [by exists a|done]. Qed.

Lemma outcome_bind {A B : Type} (c : M A) (f : A → M B) :
  outcome (c ≫= f) = outcome c ≫= (λ a, outcome (f a)).
Proof. destruct c as [t [a|e]]; simpl; [|done]. by destruct (f a). Qed.

Lemma trace_bind {A B : Type} (c : M A) (f : A → M B) :
  trace (c ≫= f) = trace c ++ match outcome c with Ok a => trace (f a) | Raise _ => [] end.
Proof.
  destruct c as [t [a|e]]; simpl; [|by rewrite app_nil_r]. by destruct (f a).
Qed.

Lemma bind_after_search {A B : Type} rs (c : M A) (f : A → M B) :
  after_search rs c ≫= f = after_search rs (c ≫= f).
Proof.
  destruct c as [t [a|e]]; unfold after_search; simpl; [|done].
  destruct (f a). simpl. by rewrite app_assoc.
Qed.

Lemma bind_mret {A : Type} (c : M A) : c ≫= mret = c.
Proof. destruct c as [t [a|e]]; simpl; [|done]. by rewrite app_nil_r. Qed.

Lemma first_entry_app es1 es2 s :
  first_entry (es1 ++ es2) s =
    match first_entry es1 s with
    | Some x => Some x
    | None => first_entry es2 s
    end.
Proof.
  induction es1 as [|[p r] es1 IH]; simpl; [done|]. by destruct (search_from r s).
Qed.

Lemma tried_app es1 es2 s :
  tried (es1 ++ es2) s =
    match first_entry es1 s with
    | Some _ => tried es1 s
    | None => tried es1 s ++ tried es2 s
    end.
Proof.
  induction es1 as [|[p r] es1 IH]; simpl; [done|].
  destruct (search_from r s); [done|]. rewrite IH. by destruct (first_entry es1 s).
Qed.

Lemma tried_none es s : first_entry es s = None → tried es s = map snd es.
Proof.
  induction es as [|[p r] es IH]; simpl; [done|].
  destruct (search_from r s); [done|]. intros H. by rewrite IH.
Qed.

Lemma first_entry_none es s :
  first_entry es s = None ↔ Forall (λ e, search_from e.2 s = None) es.
Proof.
  induction es as [|[p r] es IH]; simpl.
  - split; [constructor|done].
  - destruct (search_from r s) eqn:E.
    + split; [done|]. intros H. apply Forall_cons in H as [H _]. simpl in H. congruence.
    + rewrite IH. split; [by constructor|]. intros H. by apply Forall_cons in H as [_ H].
Qed.

Lemma first_entry_split es s p pattern m :
  first_entry es s = Some (p, pattern, m) ↔
  ∃ earlier later,
    es = earlier ++ (p, pattern) :: later ∧
    Forall (λ e, search_from e.2 s = None) earlier ∧
    search_from pattern s = Some m.
Proof.
  induction es as [|[q r] es IH]; simpl.
  - split; [done|]. intros (earlier & later & E & _). by destruct earlier.
  - destruct (search_from r s) eqn:E.
    + split.
      * intros H. invert H. exists [], es. by repeat split.
      * intros ([|e earlier] & later & Es & Hf & Hm); simpl in Es; invert Es.
        -- congruence.
        -- apply Forall_cons in Hf as [Hf _]. simpl in Hf. congruence.
    + rewrite IH. split.
      * intros (earlier & later & -> & Hf & Hm). exists ((q, r) :: earlier), later.
        repeat split; [|done]. by constructor.
      * intros ([|e earlier] & later & Es & Hf & Hm); simpl in Es; invert Es.
        -- congruence.
        -- apply Forall_cons in Hf as [_ Hf]. eauto.
Qed.

Lemma tried_split earlier p pattern later s m :
  Forall (λ e, search_from e.2 s = None) earlier →
  search_from pattern s = Some m →
  tried (earlier ++ (p, pattern) :: later) s = map snd earlier ++ [pattern].
Proof.
  intros Hf Hm. induction earlier as [|[q r] earlier IH]; simpl.
  - by rewrite Hm.
  - apply Forall_cons in Hf as [Hr Hf]. simpl in Hr. rewrite Hr. by rewrite IH.
Qed.

Lemma selects_first_entry catalog text p pattern m :
  selects catalog text p pattern m ↔
  first_entry (entries catalog) (list_ascii_of_string text) = Some (p, pattern, m).
Proof. unfold selects, found, no_match. by rewrite first_entry_split. Qed.

Lemma selects_none_first_entry catalog text :
  selects_none catalog text ↔
  first_entry (entries catalog) (list_ascii_of_string text) = None.
Proof. unfold selects_none, no_match. by rewrite first_entry_none. Qed.

Lemma entries_cons p catalog :
  entries (p :: catalog) = map (pair p) (patterns p) ++ entries catalog.
Proof. done. Qed.

Lemma map_snd_pair (p : Processor) (pats : list regex) :
  map snd (map (pair p) pats) = pats.
Proof. induction pats; simpl; congruence. Qed.

(** The inner loop finds the first pattern of the strategy that matches
    and invokes the strategy on it. *)
Lemma try_patterns_spec md p pats item_data updated text :
  description md updated = VStr text →
  try_patterns md p pats item_data updated =
    match first_entry (map (pair p) pats) (list_ascii_of_string text) with
    | Some (_, _, m) =>
        after_search (tried (map (pair p) pats) (list_ascii_of_string text))
          (u ← invoke md p item_data updated m; mret (Some u))
    | None => (map Searched pats, Ok None)
    end.
Proof.
  unfold description. intros Hd. induction pats as [|r pats IH]; simpl; [done|].
  rewrite Hd. simpl. destruct (search_from r (list_ascii_of_string text)) as [m|] eqn:E.
  - unfold after_search. simpl.
    destruct (invoke md p item_data updated m) as [t [u|e]]; simpl; by rewrite ?app_nil_r.
  - rewrite IH. destruct (first_entry _ _) as [[[q r'] m]|]; [|done].
    unfold after_search. simpl.
    by destruct (invoke md p item_data updated m) as [t [u|e]].
Qed.

(** One pass finds the first entry of the whole catalog whose pattern
    matches and invokes its strategy; with no such entry it leaves the
    record as it is. *)
Lemma run_pass_spec md catalog item_data updated text :
  description md updated = VStr text →
  run_pass md catalog item_data updated =
    match first_entry (entries catalog) (list_ascii_of_string text) with
    | Some (p, _, m) =>
        after_search (tried (entries catalog) (list_ascii_of_string text))
          (invoke md p item_data updated m)
    | None => (map Searched (map snd (entries catalog)), Ok updated)
    end.
Proof.
  intros Hd. induction catalog as [|p catalog IH]; [done|].
  rewrite entries_cons, first_entry_app, tried_app. simpl.
  rewrite (try_patterns_spec _ _ _ _ _ _ Hd).
  destruct (first_entry (map (pair p) (patterns p)) _) as [[[q r] m]|] eqn:E.
  - assert (q = p) as ->.
    { apply first_entry_split in E as (earlier & later & Es & _).
      assert (In (q, r) (map (pair p) (patterns p))) as Hin.
      { rewrite Es. apply in_or_app. right. by left. }
      apply in_map_iff in Hin as (x & Hx & _). by invert Hx. }
    unfold after_search.
    destruct (invoke md p item_data updated m) as [t [u|e]]; simpl; by rewrite ?app_nil_r.
  - rewrite IH. simpl.
    rewrite (tried_none _ _ E), map_snd_pair.
    destruct (first_entry (entries catalog) _) as [[[q r] m]|] eqn:E2.
    + unfold after_search. destruct (invoke md q item_data updated m) as [t r'].
      simpl. by rewrite map_app, app_assoc.
    + by rewrite !map_app, map_snd_pair.
Qed.

(** ** Properties of the strategies *)

(** Step through a chain of binds that ended in [Ok]. *)
Ltac bind_ok H :=
  repeat match type of H with
    | mbind _ ?e = Ok _ =>
        let E := fresh "E" in
        destruct e eqn:E; [|discriminate H];
        change (mbind ?f (Ok ?a)) with (f a) in H; cbv beta in H
    end.

Lemma div_half_even_lower n d : (0 < d)%Z → (n / d ≤ Float.div_half_even n d)%Z.
Proof.
  intros Hd. unfold Float.div_half_even.
  destruct (2 * (n mod d) ?= d)%Z; [destruct (Z.even (n / d))| |]; lia.
Qed.

(** What [round(f, 2)] returns has two decimal places, unless it is an
    infinity or the not-a-number. *)
Lemma round2_two_decimals f :
  two_decimals (Float.round2 f) ∨ Float.is_infinite (Float.round2 f) = true ∨
  Float.round2 f = S754_nan.
Proof.
  destruct f as [s|s| |s m e]; [left|right; by left|right; by right|left].
  - by exists s, 0%Z.
  - unfold Float.round2. eexists s, _. split; [|reflexivity].
    destruct (0 <=? e)%Z eqn:E.
    + apply Z.leb_le in E. pose proof (Z.pow_nonneg 2 e). nia.
    + apply Z.leb_gt in E.
      assert (0 < 2 ^ (- e))%Z as Hd by (apply Z.pow_pos_nonneg; lia).
      etrans; [|by apply div_half_even_lower]. apply Z.div_pos; lia.
Qed.

Lemma py_round2_rounded v r : py_round2 v = Ok r → rounded r.
Proof.
  unfold py_round2. destruct (as_number v) as [[z|f]|]; intros H; invert H.
  - by exists (NInt z).
  - exists (NFloat (Float.round2 f)). split; [done|apply round2_two_decimals].
Qed.

Lemma py_truediv_number a b r : py_truediv a b = Ok r → is_number a ∧ is_number r.
Proof.
  unfold py_truediv, is_number.
  destruct (as_number a) as [x|] eqn:Ea, (as_number b) as [y|]; try done.
  - intros H. split; [eauto|].
    destruct x as [x|x], y as [y|y]; simpl in H;
      repeat match type of H with
        | (if ?c then _ else _) = _ => destruct c; try discriminate H
        | mbind _ ?e = Ok _ => destruct e; simpl in H; try discriminate H
        end; invert H; by eexists.
  - by destruct x.
Qed.

Lemma group_float_number m name v : group_float m name = Ok v → ∃ q, v = VFloat q.
Proof. unfold group_float. intros H. bind_ok H. invert H. eauto. Qed.

Ltac post_deal H :=
  bind_ok H; invert H; do 2 eexists;
  split; [|split; [|reflexivity]]; eapply py_round2_rounded; eassumption.

Lemma BuyGetFree_deal_post item m out :
  BuyGetFreeProcessor.calculate_deal item m = Ok out →
  ∃ v u, rounded v ∧ rounded u ∧
    out = <["digital_coupon_price" := VStr ""]>
            (<["unit_price" := u]> (<["volume_deals_price" := v]> item)).
Proof. unfold BuyGetFreeProcessor.calculate_deal. intros H. post_deal H. Qed.

Lemma DollarDiscount_deal_post item m out :
  DollarDiscountProcessor.calculate_deal item m = Ok out →
  ∃ v u, rounded v ∧ rounded u ∧
    out = <["digital_coupon_price" := VStr ""]>
            (<["unit_price" := u]> (<["volume_deals_price" := v]> item)).
Proof.
  unfold DollarDiscountProcessor.calculate_deal. intros H. bind_ok H.
  match goal with E : mbind py_round2 _ = Ok _ |- _ => bind_ok E end.
  invert H. do 2 eexists.
  split; [|split; [|reflexivity]]; eapply py_round2_rounded; eassumption.
Qed.

Lemma PricePerLb_deal_post item m out :
  PricePerLbProcessor.calculate_deal item m = Ok out →
  ∃ v u, rounded v ∧ rounded u ∧
    out = <["digital_coupon_price" := VStr ""]>
            (<["unit_price" := u]> (<["volume_deals_price" := v]> item)).
Proof. unfold PricePerLbProcessor.calculate_deal. intros H. post_deal H. Qed.

Lemma Savings_deal_post item m out :
  SavingsProcessor.calculate_deal item m = Ok out →
  ∃ v u, rounded v ∧ rounded u ∧
    out = <["digital_coupon_price" := VStr ""]>
            (<["unit_price" := u]> (<["volume_deals_price" := v]> item)).
Proof.
  unfold SavingsProcessor.calculate_deal. intros H. bind_ok H.
  match goal with E : mbind py_round2 _ = Ok _ |- _ => bind_ok E end.
  invert H. do 2 eexists.
  split; [|split; [|reflexivity]]; eapply py_round2_rounded; eassumption.
Qed.

Lemma rounded_number v : rounded v → is_number v.
Proof. intros (n & Hn & _). by exists n. Qed.

Lemma BuyGetFree_coupon_post item m out :
  BuyGetFreeProcessor.calculate_coupon item m = Ok out →
  ∃ u c, rounded u ∧ is_number c ∧
    out = <["digital_coupon_price" := c]> (<["unit_price" := u]> item).
Proof.
  unfold BuyGetFreeProcessor.calculate_coupon. intros H. bind_ok H. invert H.
  do 2 eexists. split; [|split; [|reflexivity]].
  - eapply py_round2_rounded; eassumption.
  - match goal with E : py_truediv _ _ = Ok _ |- _ => by apply py_truediv_number in E as [? _] end.
Qed.

Lemma DollarDiscount_coupon_post item m out :
  DollarDiscountProcessor.calculate_coupon item m = Ok out →
  ∃ u c, rounded u ∧ is_number c ∧
    out = <["digital_coupon_price" := c]> (<["unit_price" := u]> item).
Proof.
  unfold DollarDiscountProcessor.calculate_coupon. intros H. bind_ok H.
  match goal with E : mbind py_round2 _ = Ok _ |- _ => bind_ok E end.
  invert H. do 2 eexists. split; [|split; [|reflexivity]].
  - eapply py_round2_rounded; eassumption.
  - apply rounded_number. eapply py_round2_rounded; eassumption.
Qed.

Lemma PricePerLb_coupon_post item m out :
  PricePerLbProcessor.calculate_coupon item m = Ok out →
  ∃ u c, rounded u ∧ is_number c ∧
    out = <["digital_coupon_price" := c]> (<["unit_price" := u]> item).
Proof.
  unfold PricePerLbProcessor.calculate_coupon. intros H. bind_ok H.
  match goal with E : mbind py_round2 _ = Ok _ |- _ => bind_ok E end.
  invert H. do 2 eexists. split; [|split; [|reflexivity]].
  - eapply py_round2_rounded; eassumption.
  - match goal with E : group_float _ _ = Ok _ |- _ =>
      apply group_float_number in E as (q & ->) end.
    by exists (NFloat q).
Qed.

Lemma Savings_coupon_post item m out :
  SavingsProcessor.calculate_coupon item m = Ok out →
  ∃ u c, rounded u ∧ is_number c ∧
    out = <["digital_coupon_price" := c]> (<["unit_price" := u]> item).
Proof.
  unfold SavingsProcessor.calculate_coupon. intros H. bind_ok H.
  match goal with E : mbind py_round2 _ = Ok _ |- _ => bind_ok E end.
  invert H. do 2 eexists. split; [|split; [|reflexivity]].
  - eapply py_round2_rounded; eassumption.
  - apply rounded_number. eapply py_round2_rounded; eassumption.
Qed.

(** The four strategy classes, in whatever order they are registered. *)
Lemma registered_cases p :
  p ∈ subclasses →
  p = BuyGetFreeProcessor.processor ∨ p = DollarDiscountProcessor.processor ∨
  p = PricePerLbProcessor.processor ∨ p = SavingsProcessor.processor.
Proof.
  unfold subclasses. intros H.
  repeat (apply elem_of_cons in H as [-> | H]; [tauto|]). by apply elem_of_nil in H.
Qed.

Lemma deal_post p item m out :
  p ∈ subclasses → calculate_deal p item m = Ok out →
  ∃ v u, rounded v ∧ rounded u ∧
    out = <["digital_coupon_price" := VStr ""]>
            (<["unit_price" := u]> (<["volume_deals_price" := v]> item)).
Proof.
  intros Hp. destruct (registered_cases p Hp) as [-> | [-> | [-> | ->]]]; simpl;
    eauto using BuyGetFree_deal_post, DollarDiscount_deal_post,
      PricePerLb_deal_post, Savings_deal_post.
Qed.

Lemma coupon_post p item m out :
  p ∈ subclasses → calculate_coupon p item m = Ok out →
  ∃ u c, rounded u ∧ is_number c ∧
    out = <["digital_coupon_price" := c]> (<["unit_price" := u]> item).
Proof.
  intros Hp. destruct (registered_cases p Hp) as [-> | [-> | [-> | ->]]]; simpl;
    eauto using BuyGetFree_coupon_post, DollarDiscount_coupon_post,
      PricePerLb_coupon_post, Savings_coupon_post.
Qed.

(** ** What a pass can return *)

Lemma invoke_outcome md p item_data updated m :
  outcome (invoke md p item_data updated m) =
    getitem item_data (description_key md) ≫= λ _, calculate md p updated m.
Proof.
  unfold invoke. destruct (getitem item_data (description_key md)); simpl; [|done].
  by destruct (calculate md p updated m).
Qed.

Lemma try_patterns_outcome md p pats item_data updated out :
  outcome (try_patterns md p pats item_data updated) = Ok (Some out) →
  ∃ m, calculate md p updated m = Ok out.
Proof.
  induction pats as [|r pats IH]; simpl; [done|].
  destruct (search r _) as [[m|]|e] eqn:E; simpl.
  - pose proof (invoke_outcome md p item_data updated m) as Hi.
    destruct (invoke md p item_data updated m) as [t [u|e]]; simpl in *; [|done].
    intros H. invert H. exists m.
    destruct (getitem item_data (description_key md)); simpl in Hi; congruence.
  - destruct (try_patterns md p pats item_data updated) as [t o]. simpl in *. exact IH.
  - done.
Qed.

(** A pass that returns leaves the record as it was or hands back what
    one strategy of the catalog computed from it. *)
Lemma run_pass_outcome md catalog item_data updated out :
  outcome (run_pass md catalog item_data updated) = Ok out →
  out = updated ∨ ∃ p m, p ∈ catalog ∧ calculate md p updated m = Ok out.
Proof.
  induction catalog as [|p catalog IH]; simpl.
  - intros H. invert H. by left.
  - pose proof (try_patterns_outcome md p (patterns p) item_data updated) as Ht.
    destruct (try_patterns md p (patterns p) item_data updated) as [t [[u|]|e]];
      simpl in *; [| |done].
    + intros H. invert H. destruct (Ht out eq_refl) as (m & Hm).
      right. exists p, m. split; [by left|done].
    + destruct (run_pass md catalog item_data updated) as [t' r]. simpl in *.
      intros H. destruct (IH H) as [->|(q & m & Hq & Hm)]; [by left|].
      right. exists q, m. split; [by right|done].
Qed.

Lemma process_single_item_outcome catalog item :
  outcome (process_single_item catalog item) =
    outcome (run_pass Deal catalog item item) ≫= λ u,
      outcome (run_pass Coupon catalog item u).
Proof.
  unfold process_single_item. rewrite outcome_bind.
  destruct (outcome (run_pass Deal catalog item item)) as [u|e]; simpl; [|done].
  by rewrite bind_mret.
Qed.

Lemma process_single_item_trace catalog item :
  trace (process_single_item catalog item) =
    trace (run_pass Deal catalog item item) ++
    match outcome (run_pass Deal catalog item item) with
    | Ok u => trace (run_pass Coupon catalog item u)
    | Raise _ => []
    end.
Proof.
  unfold process_single_item. rewrite trace_bind.
  destruct (outcome (run_pass Deal catalog item item)) as [u|e]; [|done].
  by rewrite bind_mret.
Qed.

(** A pass on a description that the entry [(p, pattern)] is the first to
    match: the patterns before it are searched, then the strategy of [p]
    is invoked; nothing after it is touched. *)
Lemma run_pass_selected md catalog item_data updated text earlier later p pattern m :
  description md updated = VStr text →
  entries catalog = earlier ++ (p, pattern) :: later →
  Forall (λ e, no_match e.2 text) earlier →
  found pattern text m →
  run_pass md catalog item_data updated =
    after_search (map snd earlier ++ [pattern]) (invoke md p item_data updated m).
Proof.
  intros Hd He Hf Hm. rewrite (run_pass_spec _ _ _ _ _ Hd).
  assert (first_entry (entries catalog) (list_ascii_of_string text) = Some (p, pattern, m)) as ->.
  { apply first_entry_split. eauto. }
  rewrite He. by erewrite tried_split.
Qed.

Lemma run_pass_unselected md catalog item_data updated text :
  description md updated = VStr text →
  selects_none catalog text →
  run_pass md catalog item_data updated =
    (map Searched (map snd (entries catalog)), Ok updated).
Proof.
  intros Hd Hn. rewrite (run_pass_spec _ _ _ _ _ Hd).
  apply selects_none_first_entry in Hn. by rewrite Hn.
Qed.

Lemma searches_searched rs : searches (map Searched rs) = rs.
Proof. induction rs; simpl; congruence. Qed.

Lemma searches_app t1 t2 : searches (t1 ++ t2) = searches t1 ++ searches t2.
Proof. apply omap_app. Qed.

Lemma messages_app t1 t2 : messages (t1 ++ t2) = messages t1 ++ messages t2.
Proof. apply omap_app. Qed.

Lemma messages_searched rs : messages (map Searched rs) = [].
Proof. induction rs; simpl; congruence. Qed.

(** What invoking a strategy logs and returns, on a record whose
    description is a text. *)
Lemma invoke_text md p item_data updated m text :
  item_data !! description_key md = Some (VStr text) →
  invoke md p item_data updated m =
    (Info (matched_message md p text) ::
       match calculate md p updated m with
       | Ok _ => [Info (processed_message md p)]
       | Raise _ => []
       end,
     calculate md p updated m).
Proof.
  intros Hk. unfold invoke, getitem. rewrite Hk. simpl.
  by destruct (calculate md p updated m).
Qed.

(** ** The claims *)

(** C2.  In either pass the patterns are tried in the registration order of
    the catalog and the first pattern that matches the description wins:
    the outcome of the pass is exactly what the strategy of that entry
    computes, the [re.search] calls of the pass are those of the entries
    before it and its own, and the log names that strategy only.  The
    entries after it play no part, whether or not they would match. *)
Theorem C2_first_match_wins :
  ∀ (md : mode) (catalog : list Processor) (item_data updated : record)
    (text : string) (earlier later : list (Processor * regex))
    (p : Processor) (pattern : regex) (m : captures),
    item_data !! description_key md = Some (VStr text) →
    description md updated = VStr text →
    entries catalog = earlier ++ (p, pattern) :: later →
    Forall (λ e, no_match e.2 text) earlier →
    found pattern text m →
    outcome (run_pass md catalog item_data updated) = calculate md p updated m ∧
    searches (trace (run_pass md catalog item_data updated)) = map snd earlier ++ [pattern] ∧
    messages (trace (run_pass md catalog item_data updated)) =
      matched_message md p text ::
        match calculate md p updated m with
        | Ok _ => [processed_message md p]
        | Raise _ => []
        end.
Proof.
  intros md catalog item_data updated text earlier later p pattern m Hk Hd He Hf Hm.
  rewrite (run_pass_selected _ _ _ _ _ _ _ _ _ _ Hd He Hf Hm), (invoke_text _ _ _ _ _ _ Hk).
  unfold after_search, trace, outcome. simpl. split; [done|].
  rewrite searches_app, messages_app, searches_searched, messages_searched. simpl.
  destruct (calculate md p updated m); simpl; by rewrite ?app_nil_r.
Qed.

(** A description that both the dollar-off and the savings pattern match:
    the dollar-off entry comes first and is the one invoked. *)
Lemma C2_first_match_wins_witness :
  let item : record :=
    {[ "volume_deals_description" := VStr "$2 off, Save $1"; "price" := VFloat 5 ]} in
  let m : captures := {[ "discount" := [ "2"%char ] ]} in
  found SavingsProcessor.pattern "$2 off, Save $1" {[ "savings" := [ "1"%char ] ]} ∧
  outcome (run_pass Deal subclasses item item) =
    DollarDiscountProcessor.calculate_deal item m ∧
  searches (trace (run_pass Deal subclasses item item)) =
    [BuyGetFreeProcessor.pattern_free; BuyGetFreeProcessor.pattern_discount;
     DollarDiscountProcessor.pattern] ∧
  messages (trace (run_pass Deal subclasses item item)) =
    ["Pattern matched for deals in DollarDiscountProcessor: $2 off, Save $1";
     "Deal processed by DollarDiscountProcessor"].
Proof.
  intros item m. split; [by_vm|].
  apply (C2_first_match_wins Deal subclasses item item "$2 off, Save $1"
           [(BuyGetFreeProcessor.processor, BuyGetFreeProcessor.pattern_free);
            (BuyGetFreeProcessor.processor, BuyGetFreeProcessor.pattern_discount)]
           [(PricePerLbProcessor.processor, PricePerLbProcessor.pattern);
            (SavingsProcessor.processor, SavingsProcessor.pattern)]
           DollarDiscountProcessor.processor DollarDiscountProcessor.pattern m).
  - by_vm.
  - by_vm.
  - reflexivity.
  - apply Forall_cons; split; [by_vm|]. apply Forall_cons; split; [by_vm|]. constructor.
  - by_vm.
Defined.

Lemma entries_elem catalog p r : (p, r) ∈ entries catalog → p ∈ catalog ∧ r ∈ patterns p.
Proof.
  intros H. apply list_elem_of_In in H. unfold entries in H.
  apply in_concat in H as (l & Hl & H). apply in_map_iff in Hl as (q & <- & Hq).
  apply in_map_iff in H as (x & Hx & Hr). invert Hx.
  split; by apply list_elem_of_In.
Qed.

Lemma selects_elem catalog text p pattern m :
  selects catalog text p pattern m → p ∈ catalog.
Proof.
  intros (earlier & later & He & _). eapply entries_elem. rewrite He.
  apply elem_of_app. right. by left.
Qed.

(** The outcome of a pass once the catalog has selected an entry. *)
Lemma run_pass_selects_outcome md catalog item_data updated text p pattern m :
  item_data !! description_key md = Some (VStr text) →
  description md updated = VStr text →
  selects catalog text p pattern m →
  outcome (run_pass md catalog item_data updated) = calculate md p updated m.
Proof.
  intros Hk Hd (earlier & later & He & Hf & Hm).
  rewrite (run_pass_selected _ _ _ _ _ _ _ _ _ _ Hd He Hf Hm), (invoke_text _ _ _ _ _ _ Hk).
  done.
Qed.

Lemma description_of_field md item text :
  item !! description_key md = Some (VStr text) → description md item = VStr text.
Proof. unfold description, get_default. by intros ->. Qed.

(** C1, as the code has it.  When the deal pass matches a catalog pattern
    and processing returns, the record produced carries the three price
    fields: [volume_deals_price] and [unit_price] hold numbers rounded to
    two decimal places and [digital_coupon_price] holds the empty-text
    sentinel or a number.  When neither description matches a pattern the
    record is returned as it came, with no field added. *)
Theorem C1_price_fields_after_deal_match :
  ∀ (catalog : list Processor) (item : record),
    (∀ q, q ∈ catalog → q ∈ subclasses) →
    (∀ text p pattern m out,
       item !! "volume_deals_description" = Some (VStr text) →
       selects catalog text p pattern m →
       outcome (process_single_item catalog item) = Ok out →
       (∃ v, out !! "volume_deals_price" = Some v ∧ rounded v) ∧
       (∃ v, out !! "unit_price" = Some v ∧ rounded v) ∧
       (∃ v, out !! "digital_coupon_price" = Some v ∧ (v = VStr "" ∨ is_number v))) ∧
    (∀ deal_text coupon_text,
       description Deal item = VStr deal_text →
       description Coupon item = VStr coupon_text →
       selects_none catalog deal_text →
       selects_none catalog coupon_text →
       outcome (process_single_item catalog item) = Ok item).
Proof.
  intros catalog item Hcat. split.
  - intros text p pattern m out Hk Hsel H.
    rewrite process_single_item_outcome in H.
    rewrite (run_pass_selects_outcome Deal _ _ _ _ _ _ _ Hk (description_of_field Deal _ _ Hk) Hsel) in H.
    simpl in H. destruct (calculate_deal p item m) as [u|e] eqn:Ed; [|done]. simpl in H.
    apply deal_post in Ed as (v & w & Hv & Hw & ->);
      [|apply Hcat; by eapply selects_elem].
    apply run_pass_outcome in H as [-> | (q & m' & Hq & Hc)].
    + repeat split; eexists; (split; [by simplify_map_eq|]); eauto.
    + simpl in Hc. apply coupon_post in Hc as (u' & c & Hu' & Hc & ->); [|by apply Hcat].
      repeat split; eexists; (split; [by simplify_map_eq|]); eauto.
  - intros deal_text coupon_text Hd Hc Hnd Hnc.
    rewrite process_single_item_outcome.
    rewrite (run_pass_unselected _ _ _ _ _ Hd Hnd). simpl.
    by rewrite (run_pass_unselected _ _ _ _ _ Hc Hnc).
Qed.

(** A record whose deal description matches the first catalog pattern. *)
Lemma C1_price_fields_after_deal_match_witness :
  let item : record :=
    {[ "volume_deals_description" := VStr "Buy 4, Get 1 Free";
       "digital_coupon_short_description" := VStr "";
       "regular_price" := VFloat 10 ]} in
  let out : record :=
    <["digital_coupon_price" := VStr ""]>
      (<["unit_price" := VFloat 8]> (<["volume_deals_price" := VFloat 40]> item)) in
  outcome (process_single_item subclasses item) = Ok out ∧
  (∃ v, out !! "volume_deals_price" = Some v ∧ rounded v) ∧
  (∃ v, out !! "unit_price" = Some v ∧ rounded v) ∧
  (∃ v, out !! "digital_coupon_price" = Some v ∧ (v = VStr "" ∨ is_number v)).
Proof.
  intros item out.
  assert (Hout : outcome (process_single_item subclasses item) = Ok out) by by_vm.
  split; [exact Hout|].
  apply (proj1 (C1_price_fields_after_deal_match subclasses item (λ q Hq, Hq))
           "Buy 4, Get 1 Free" BuyGetFreeProcessor.processor BuyGetFreeProcessor.pattern_free
           (<["free" := [ "1"%char ]]> (<["quantity" := [ "4"%char ]]> ∅)) out).
  - by_vm.
  - exists [], (tail (entries subclasses)).
    split; [reflexivity|]. split; [constructor|]. by_vm.
  - exact Hout.
Defined.

(** C1 as stated fails twice.  A record whose descriptions match no
    catalog pattern comes back without any of the three price fields; and
    after a dollar-off deal, a Buy N Get M coupon with a discount group
    leaves a [digital_coupon_price] of 1.875, which is not rounded to two
    decimal places. *)
Lemma C1_counterexample :
  let item : record :=
    {[ "volume_deals_description" := VStr "2 for $5";
       "digital_coupon_short_description" := VStr "";
       "regular_price" := VFloat 3 ]} in
  let stacked : record :=
    {[ "volume_deals_description" := VStr "$1.25 off";
       "digital_coupon_short_description" := VStr "Buy 1, get 1 50% off";
       "price" := VFloat 2.5 ]} in
  (outcome (process_single_item subclasses item) = Ok item ∧
   item !! "volume_deals_price" = None ∧
   item !! "unit_price" = None ∧
   item !! "digital_coupon_price" = None) ∧
  (∃ out,
     outcome (process_single_item subclasses stacked) = Ok out ∧
     out !! "digital_coupon_price" = Some (VFloat 1.875) ∧
     py_round2 (VFloat 1.875) = Ok (VFloat 1.88) ∧
     ¬ rounded (VFloat 1.875)).
Proof.
  intros item stacked. split; [repeat apply conj; by_vm|].
  exists (<["digital_coupon_price" := VFloat 1.875]>
            (<["unit_price" := VFloat 0.94]>
               (<["digital_coupon_price" := VStr ""]>
                  (<["unit_price" := VFloat 1.25]>
                     (<["volume_deals_price" := VFloat 1.25]> stacked))))).
  split; [by_vm|]. split; [by_vm|]. split; [by_vm|].
  intros (n & Hn & H). invert Hn.
  destruct H as [(s & c & Hc & Hr) | [H | H]]; [|done|done].
  symmetry in Hr. apply of_ratio_error in Hr; [|done|done].
  change (2 ^ (- -52))%Z with 4503599627370496%Z in Hr. lia.
Qed.

(** C5, as the code has it.  Nothing is renamed: in the record produced
    after both passes every field other than the three computed price
    fields is as it was in the input.  In particular
    [digital_coupon_short_description] is still there with its value, and
    a [digital_coupon_description] is there only if the input had one. *)
Theorem C5_other_fields_kept :
  ∀ (catalog : list Processor) (item out : record),
    (∀ q, q ∈ catalog → q ∈ subclasses) →
    outcome (process_single_item catalog item) = Ok out →
    (∀ k, ¬ computed_field k → out !! k = item !! k) ∧
    out !! "digital_coupon_short_description" = item !! "digital_coupon_short_description" ∧
    out !! "digital_coupon_description" = item !! "digital_coupon_description".
Proof.
  intros catalog item out Hcat H.
  assert (G : ∀ k, ¬ computed_field k → out !! k = item !! k).
  { intros k Hk. unfold computed_field in Hk.
    rewrite process_single_item_outcome in H.
    destruct (outcome (run_pass Deal catalog item item)) as [u|e] eqn:Ed; [|done].
    simpl in H.
    assert (Hu : u !! k = item !! k).
    { apply run_pass_outcome in Ed as [-> | (q & m & Hq & Hc)]; [done|].
      simpl in Hc. apply deal_post in Hc as (v & w & _ & _ & ->); [|by apply Hcat].
      rewrite !lookup_insert_ne; [done|by intros <-; apply Hk; auto..]. }
    rewrite <- Hu.
    apply run_pass_outcome in H as [-> | (q & m & Hq & Hc)]; [done|].
    simpl in Hc. apply coupon_post in Hc as (v & w & _ & _ & ->); [|by apply Hcat].
    rewrite !lookup_insert_ne; [done|by intros <-; apply Hk; auto..]. }
  split; [exact G|]. split; apply G; unfold computed_field; intros [?|[?|?]]; done.
Qed.

Lemma C5_other_fields_kept_witness :
  let item : record :=
    {[ "volume_deals_description" := VStr "Buy 4, Get 1 Free";
       "digital_coupon_short_description" := VStr "Save $1";
       "regular_price" := VFloat 10 ]} in
  let out : record :=
    <["digital_coupon_price" := VFloat 1]>
      (<["unit_price" := VFloat 7]> (<["volume_deals_price" := VFloat 40]> item)) in
  outcome (process_single_item subclasses item) = Ok out ∧
  (∀ k, ¬ computed_field k → out !! k = item !! k) ∧
  out !! "digital_coupon_short_description" = item !! "digital_coupon_short_description" ∧
  out !! "digital_coupon_description" = item !! "digital_coupon_description".
Proof.
  intros item out.
  assert (Hout : outcome (process_single_item subclasses item) = Ok out) by by_vm.
  split; [exact Hout|].
  exact (C5_other_fields_kept subclasses item out (λ q Hq, Hq) Hout).
Defined.

(** C5 as stated fails: after both passes the coupon description is still
    under its old key and no [digital_coupon_description] exists. *)
Lemma C5_counterexample :
  let item : record :=
    {[ "volume_deals_description" := VStr "Buy 4, Get 1 Free";
       "digital_coupon_short_description" := VStr "Save $1";
       "regular_price" := VFloat 10 ]} in
  ∃ out,
    outcome (process_single_item subclasses item) = Ok out ∧
    out !! "digital_coupon_short_description" = Some (VStr "Save $1") ∧
    out !! "digital_coupon_description" = None.
Proof.
  intros item.
  exists (<["digital_coupon_price" := VFloat 1]>
            (<["unit_price" := VFloat 7]> (<["volume_deals_price" := VFloat 40]> item))).
  repeat apply conj; by_vm.
Qed.

Lemma process_each_cons catalog b rest :
  process_each catalog (b :: rest) =
    (processed ← process_single_item catalog b;
     tagged ← lift (apply_store_brands processed);
     others ← process_each catalog rest;
     mret (tagged :: others)).
Proof. reflexivity. Qed.

Lemma process_each_raises catalog item e :
  outcome (process_single_item catalog item) = Raise e →
  ∀ before after, raises (outcome (process_each catalog (before ++ item :: after))).
Proof.
  intros He before after.
  induction before as [|b before IH]; simpl app; rewrite process_each_cons.
  - rewrite outcome_bind, He. by exists e.
  - rewrite outcome_bind.
    destruct (outcome (process_single_item catalog b)) as [u|e1]; [|by exists e1].
    change (Ok u ≫= ?f) with (f u). cbv beta. rewrite outcome_bind.
    change (outcome (lift ?r)) with r.
    destruct (apply_store_brands u) as [t|e2]; [|by exists e2].
    change (Ok t ≫= ?f) with (f t). cbv beta. rewrite outcome_bind.
    destruct IH as (e3 & ->). by exists e3.
Qed.

(** C3, as the code has it.  Nothing catches what a strategy raises.  When
    the strategy selected in the deal pass, or in the coupon pass after a
    deal pass that returned, raises [e], then [process_single_item] raises
    [e]; the last line logged for the record is the "Pattern matched" line
    of that pass; and [process_item] raises too, for the record alone and
    for any list that holds it, so the call appends nothing. *)
Theorem C3_strategy_exception_propagates :
  ∀ (catalog : list Processor) (item updated : record) (md : mode) (text : string)
    (p : Processor) (pattern : regex) (m : captures) (e : exn),
    (md = Deal ∧ updated = item) ∨
    (md = Coupon ∧ outcome (run_pass Deal catalog item item) = Ok updated) →
    item !! description_key md = Some (VStr text) →
    description md updated = VStr text →
    selects catalog text p pattern m →
    calculate md p updated m = Raise e →
    outcome (process_single_item catalog item) = Raise e ∧
    last (messages (trace (process_single_item catalog item))) =
      Some (matched_message md p text) ∧
    (md = Deal →
     trace (process_single_item catalog item) = trace (run_pass Deal catalog item item)) ∧
    (∀ results, outcome (process_item catalog results (Single item)) = Raise e) ∧
    (∀ results before after,
       raises (outcome (process_item catalog results (Many (before ++ item :: after))))).
Proof.
  intros catalog item updated md text p pattern m e Hmd Hk Hd Hsel He.
  destruct Hsel as (earlier & later & Hes & Hf & Hm).
  pose proof (run_pass_selected md catalog item updated text _ _ _ _ _ Hd Hes Hf Hm) as Hrun.
  rewrite (invoke_text _ _ _ _ _ _ Hk), He in Hrun.
  assert (Hout : outcome (process_single_item catalog item) = Raise e).
  { rewrite process_single_item_outcome.
    destruct Hmd as [[-> ->] | [-> Hdeal]].
    - by rewrite Hrun.
    - rewrite Hdeal. simpl. by rewrite Hrun. }
  split; [exact Hout|]. split; [|split; [|split]].
  - rewrite process_single_item_trace.
    destruct Hmd as [[-> ->] | [-> Hdeal]].
    + rewrite Hrun. unfold after_search, trace, outcome. simpl.
      rewrite app_nil_r, messages_app, messages_searched. done.
    + rewrite Hdeal, Hrun. unfold after_search, trace at 2. simpl.
      rewrite !messages_app, messages_searched. simpl. apply last_snoc.
  - intros ->. destruct Hmd as [[_ ->] | [? _]]; [|done].
    rewrite process_single_item_trace, Hrun. unfold outcome. simpl. apply app_nil_r.
  - intros results. simpl. by rewrite outcome_bind, Hout.
  - intros results before after. simpl. rewrite outcome_bind.
    destruct (process_each_raises catalog item e Hout before after) as (e' & ->).
    by exists e'.
Qed.

(** A price-per-weight deal on a record whose weight is a text. *)
Lemma C3_strategy_exception_propagates_witness :
  let item : record :=
    {[ "volume_deals_description" := VStr "$3.50/lb";
       "digital_coupon_short_description" := VStr "";
       "weight" := VStr "2 lb";
       "product_title" := VStr "Kroger ground beef" ]} in
  outcome (process_single_item subclasses item) = Raise TypeError ∧
  last (messages (trace (process_single_item subclasses item))) =
    Some (matched_message Deal PricePerLbProcessor.processor "$3.50/lb") ∧
  (Deal = Deal →
   trace (process_single_item subclasses item) = trace (run_pass Deal subclasses item item)) ∧
  (∀ results, outcome (process_item subclasses results (Single item)) = Raise TypeError) ∧
  (∀ results before after,
     raises (outcome (process_item subclasses results (Many (before ++ item :: after))))).
Proof.
  intros item.
  apply (C3_strategy_exception_propagates subclasses item item Deal "$3.50/lb"
           PricePerLbProcessor.processor PricePerLbProcessor.pattern
           {[ "price_per_lb" := list_ascii_of_string "3.50" ]} TypeError).
  - by left.
  - by_vm.
  - by_vm.
  - exists (take 3 (entries subclasses)), (drop 4 (entries subclasses)).
    split; [reflexivity|]. split; [|by_vm].
    apply Forall_cons; split; [by_vm|]. apply Forall_cons; split; [by_vm|].
    apply Forall_cons; split; [by_vm|]. constructor.
  - by_vm.
Defined.

(** C3 as stated fails: the strategy selected for the first record raises,
    the exception leaves [process_single_item] and the batch run, and the
    second record, which processes well on its own, is never reached. *)
Lemma C3_counterexample :
  let item : record :=
    {[ "volume_deals_description" := VStr "$3.50/lb";
       "digital_coupon_short_description" := VStr "";
       "weight" := VStr "2 lb";
       "product_title" := VStr "Kroger ground beef" ]} in
  let next : record :=
    {[ "volume_deals_description" := VStr "Buy 4, Get 1 Free";
       "digital_coupon_short_description" := VStr "";
       "regular_price" := VFloat 10;
       "product_title" := VStr "Lucerne milk" ]} in
  selects subclasses "$3.50/lb" PricePerLbProcessor.processor PricePerLbProcessor.pattern
    {[ "price_per_lb" := list_ascii_of_string "3.50" ]} ∧
  PricePerLbProcessor.calculate_deal item
    {[ "price_per_lb" := list_ascii_of_string "3.50" ]} = Raise TypeError ∧
  outcome (process_single_item subclasses item) = Raise TypeError ∧
  outcome (process_item subclasses [] (Many [item; next])) = Raise TypeError ∧
  returns (outcome (process_item subclasses [] (Many [next]))).
Proof.
  intros item next. split; [|repeat apply conj; try by_vm].
  - exists (take 3 (entries subclasses)), (drop 4 (entries subclasses)).
    split; [reflexivity|]. split; [|by_vm].
    apply Forall_cons; split; [by_vm|]. apply Forall_cons; split; [by_vm|].
    apply Forall_cons; split; [by_vm|]. constructor.
  - apply is_ok_returns. by_vm.
Qed.

(** ** Arithmetic on numbers *)

Lemma bind_ok_eq {A B : Type} (a : A) (f : A → result B) : Ok a ≫= f = f a.
Proof. done. Qed.

Lemma as_number_of_number n : as_number (of_number n) = Some n.
Proof. by destruct n. Qed.

Lemma as_number_float v f : as_number v = Some (NFloat f) → v = VFloat f.
Proof. destruct v; intros H; by invert H. Qed.

Lemma py_mul_float_int f z n :
  Float.of_int z = Ok n → py_mul (VFloat f) (VInt z) = Ok (VFloat (Float.mul f n)).
Proof. intros H. unfold py_mul. simpl. by rewrite H. Qed.

Lemma py_mul_float_float f g : py_mul (VFloat f) (VFloat g) = Ok (VFloat (Float.mul f g)).
Proof. done. Qed.

Lemma py_mul_int_int a x y :
  as_number a = Some (NInt x) → py_mul a (VInt y) = Ok (VInt (x * y)).
Proof. intros H. unfold py_mul. by rewrite H. Qed.

(** A float times a number: the number becomes a float first. *)
Lemma py_mul_float_number f b w w' :
  as_number b = Some w → to_float w = Ok w' →
  py_mul (VFloat f) b = Ok (VFloat (Float.mul f w')).
Proof. intros Hb Hw. unfold py_mul. rewrite Hb. simpl. by rewrite Hw. Qed.

Lemma py_mul_float_number_raise f b w e :
  as_number b = Some w → to_float w = Raise e → py_mul (VFloat f) b = Raise e.
Proof. intros Hb Hw. unfold py_mul. rewrite Hb. simpl. by rewrite Hw. Qed.

Lemma py_add_float_float f g : py_add (VFloat f) (VFloat g) = Ok (VFloat (Float.add f g)).
Proof. done. Qed.

(** A number minus a float: the number becomes a float first. *)
Lemma py_sub_number_float a p p' X :
  as_number a = Some p → to_float p = Ok p' →
  py_sub a (VFloat X) = Ok (VFloat (Float.sub p' X)).
Proof.
  intros Ha Hp. unfold py_sub. rewrite Ha.
  destruct p; simpl in *; [by rewrite Hp|by invert Hp].
Qed.

Lemma py_sub_number_float_raise a p e X :
  as_number a = Some p → to_float p = Raise e → py_sub a (VFloat X) = Raise e.
Proof.
  intros Ha Hp. unfold py_sub. rewrite Ha.
  destruct p; simpl in *; [by rewrite Hp|done].
Qed.

Lemma py_sub_text s b : py_sub (VStr s) b = Raise TypeError.
Proof. done. Qed.

Lemma py_truediv_float_int f z t :
  Float.of_int z = Ok t → Float.is_zero t = false →
  py_truediv (VFloat f) (VInt z) = Ok (VFloat (Float.div f t)).
Proof. intros H Hz. unfold py_truediv. simpl. rewrite H. simpl. by rewrite Hz. Qed.

Lemma py_truediv_int_int x y :
  y ≠ 0%Z → Float.is_infinite (Float.int_div x y) = false →
  py_truediv (VInt x) (VInt y) = Ok (VFloat (Float.int_div x y)).
Proof.
  intros Hy Hq. unfold py_truediv. simpl.
  destruct (Z.eqb_spec y 0) as [->|_]; [done|]. by rewrite Hq.
Qed.

Lemma py_truediv_by_one f : py_truediv (VFloat f) (VInt 1) = Ok (VFloat (Float.div f 1)).
Proof. done. Qed.

Lemma py_truediv_text s b : py_truediv (VStr s) b = Raise TypeError.
Proof. done. Qed.

Lemma py_round2_float f : py_round2 (VFloat f) = Ok (VFloat (Float.round2 f)).
Proof. done. Qed.

(** A text times a float, in either order, is a [TypeError]. *)
Lemma py_mul_float_text f s : py_mul (VFloat f) (VStr s) = Raise TypeError.
Proof. done. Qed.

Lemma py_mul_text_float f s : py_mul (VStr s) (VFloat f) = Raise TypeError.
Proof. done. Qed.

(** *** Integers as floats *)

Lemma log2_ratio_upper n d : (Float.log2_ratio n d ≤ Z.log2 n - Z.log2 d)%Z.
Proof.
  unfold Float.log2_ratio. cbv zeta.
  match goal with |- ((if ?c then _ else _) ≤ _)%Z => destruct c end; lia.
Qed.

(** The double nearest to a non-zero integer is not a zero. *)
Lemma of_Z_nonzero z : z ≠ 0%Z → Float.is_zero (Float.of_Z z) = false.
Proof.
  intros Hz. unfold Float.of_Z, Float.of_ratio.
  destruct (Z.leb_spec (Z.abs z) 0) as [?|Hn]; [lia|]. cbv zeta.
  set (n := Z.abs z) in *.
  set (e := Z.max (Float.log2_ratio n 1 - 52) (-1074)).
  assert (Hm : (0 < Float.scaled n 1 e)%Z).
  { pose proof (log2_ratio_upper n 1) as Hl. change (Z.log2 1) with 0%Z in Hl.
    pose proof (Z.log2_spec n Hn) as [Hlo _].
    unfold Float.scaled. destruct (Z.leb_spec 0 e) as [He|He].
    - pose proof (div_half_even_lower n (1 * 2 ^ e) ltac:(lia)) as Hq.
      assert (2 ^ e ≤ 2 ^ Z.log2 n)%Z by (apply Z.pow_le_mono_r; lia).
      assert (1 ≤ n / (1 * 2 ^ e))%Z; [|lia].
      apply Z.div_le_lower_bound; lia.
    - pose proof (div_half_even_lower (n * 2 ^ (- e)) 1 ltac:(lia)) as Hq.
      rewrite Z.div_1_r in Hq. assert (0 < 2 ^ (- e))%Z by (apply Z.pow_pos_nonneg; lia). nia. }
  destruct (Float.scaled n 1 e =? 2 ^ 53)%Z.
  - change (2 ^ 52)%Z with (Zpos (2 ^ 52)). cbv iota beta. by destruct (_ <=? 971)%Z.
  - destruct (Float.scaled n 1 e); [lia| |lia]. by destruct (_ <=? 971)%Z.
Qed.

Lemma of_int_nonzero z t : z ≠ 0%Z → Float.of_int z = Ok t → Float.is_zero t = false.
Proof.
  intros Hz. unfold Float.of_int. cbv zeta.
  destruct (Float.is_infinite _); [done|]. intros H. invert H. by apply of_Z_nonzero.
Qed.

Lemma of_int_raise z e : Float.of_int z = Raise e → e = OverflowError.
Proof. unfold Float.of_int. cbv zeta. destruct (Float.is_infinite _); intros H; by invert H. Qed.

(** ** Buy N Get M Free, deal mode *)

Lemma free_captures_lookup qs fs :
  let m : captures := <["free" := fs]> (<["quantity" := qs]> ∅) in
  group m "quantity" = Ok qs ∧ group m "free" = Ok fs ∧ groupdict_get m "discount" = None.
Proof. unfold group, groupdict_get. by simplify_map_eq. Qed.

(** The branch without a discount group, as the code computes it. *)
Lemma BuyGetFree_deal_free item qs fs N M :
  py_int qs = Ok N → py_int fs = Ok M →
  BuyGetFreeProcessor.calculate_deal item (<["free" := fs]> (<["quantity" := qs]> ∅)) =
    regular_price ← getitem item "regular_price";
    total ← py_mul regular_price (VInt N);
    unit ← py_truediv total (VInt (N + M));
    v ← py_round2 total;
    u ← py_round2 unit;
    Ok (<["digital_coupon_price" := VStr ""]>
          (<["unit_price" := u]> (<["volume_deals_price" := v]> item))).
Proof.
  intros Hq Hf. destruct (free_captures_lookup qs fs) as (Gq & Gf & Gd).
  unfold BuyGetFreeProcessor.calculate_deal.
  rewrite Gq, Gf, Gd, !bind_ok_eq, Hq, Hf, !bind_ok_eq.
  cbv beta iota delta [BuyGetFreeProcessor.group_truthy].
  by destruct (getitem item "regular_price").
Qed.

(** C4, as the code has it.  When the catalog selects the Buy N Get M Free
    pattern (the one without a discount group) for the deal description,
    the two quantities are runs of digits, which [int] reads unless a run
    is longer than 4300 digits.  With [regular_price] a number and [N + M]
    not zero, the deal pass sets [volume_deals_price] to [round(p * N, 2)]
    and [unit_price] to [round(p * N / (N + M), 2)], computed as Python
    does.  For a float price [N] and [N + M] become doubles and the
    product, the quotient and the two roundings are those of doubles; a
    quantity too large for a double is an [OverflowError].  For an [int]
    price the product is the exact integer, which [round] leaves as it
    is, and the quotient is the double nearest to the exact one.  In the
    catalog order of the spec that pattern is the first entry, so every
    description that matches it selects it.  "Buy 4, Get 1 Free" at 10.00
    gives 40.00 and 8.00; "Buy 3, get 1 20% off" at 9.00 gives 34.20 and
    8.55. *)
Theorem C4_buy_get_free_deal :
  (∀ (catalog : list Processor) (item : record) (text : string) (m : captures)
     (price : value) (p : number),
     item !! "volume_deals_description" = Some (VStr text) →
     selects catalog text BuyGetFreeProcessor.processor BuyGetFreeProcessor.pattern_free m →
     item !! "regular_price" = Some price →
     as_number price = Some p →
     ∃ qs fs : list ascii,
       group m "quantity" = Ok qs ∧ group m "free" = Ok fs ∧ digits qs ∧ digits fs ∧
       ((length qs ≤ int_max_str_digits)%nat → (length fs ≤ int_max_str_digits)%nat →
        py_int qs = Ok (digits_val qs) ∧ py_int fs = Ok (digits_val fs)) ∧
       (∀ N M : Z,
          py_int qs = Ok N → py_int fs = Ok M →
          (0 ≤ N)%Z ∧ (0 ≤ M)%Z ∧
          (∀ f n t,
             p = NFloat f → Float.of_int N = Ok n → Float.of_int (N + M) = Ok t →
             (0 < N + M)%Z →
             ∃ out,
               outcome (run_pass Deal catalog item item) = Ok out ∧
               out !! "volume_deals_price" = Some (VFloat (Float.round2 (Float.mul f n))) ∧
               out !! "unit_price" =
                 Some (VFloat (Float.round2 (Float.div (Float.mul f n) t)))) ∧
          (∀ f, p = NFloat f → Float.of_int N = Raise OverflowError →
             outcome (run_pass Deal catalog item item) = Raise OverflowError) ∧
          (∀ z,
             p = NInt z → (0 < N + M)%Z →
             Float.is_infinite (Float.int_div (z * N) (N + M)) = false →
             ∃ out,
               outcome (run_pass Deal catalog item item) = Ok out ∧
               out !! "volume_deals_price" = Some (VInt (z * N)) ∧
               out !! "unit_price" =
                 Some (VFloat (Float.round2 (Float.int_div (z * N) (N + M))))))) ∧
  (∀ text m,
     found BuyGetFreeProcessor.pattern_free text m →
     selects subclasses text BuyGetFreeProcessor.processor BuyGetFreeProcessor.pattern_free m) ∧
  (let item : record :=
     {[ "volume_deals_description" := VStr "Buy 4, Get 1 Free"; "regular_price" := VFloat 10 ]} in
   ∃ out,
     outcome (process_single_item subclasses item) = Ok out ∧
     out !! "volume_deals_price" = Some (VFloat 40) ∧
     out !! "unit_price" = Some (VFloat 8)) ∧
  (let item : record :=
     {[ "volume_deals_description" := VStr "Buy 3, get 1 20% off"; "regular_price" := VFloat 9 ]} in
   ∃ out,
     outcome (process_single_item subclasses item) = Ok out ∧
     out !! "volume_deals_price" = Some (VFloat 34.2) ∧
     out !! "unit_price" = Some (VFloat 8.55) ∧
     let total :=
       Float.add (Float.mul 9 3) (Float.mul (Float.mul 9 (Float.sub 1 (Float.int_div 20 100))) 1) in
     Float.round2 total = 34.2%float ∧
     Float.round2 (Float.div total 4) = 8.55%float).
Proof.
  split; [|split; [|split]].
  - intros catalog item text m price p Hk Hsel Hp Hn.
    assert (Hm : found BuyGetFreeProcessor.pattern_free text m).
    { by destruct Hsel as (? & ? & _ & _ & ?). }
    apply pattern_free_captures in Hm as (qs & fs & Hq & Hf & ->).
    destruct (free_captures_lookup qs fs) as (Gq & Gf & _).
    exists qs, fs. split; [exact Gq|]. split; [exact Gf|]. split; [exact Hq|]. split; [exact Hf|].
    split; [intros Lq Lf; split; by apply py_int_digits|].
    intros N M HN HM.
    rewrite (run_pass_selects_outcome Deal _ _ _ _ _ _ _ Hk (description_of_field Deal _ _ Hk) Hsel).
    simpl calculate. rewrite (BuyGetFree_deal_free item qs fs N M HN HM).
    unfold getitem. rewrite Hp, bind_ok_eq.
    split; [rewrite (py_int_ok _ _ HN); apply digits_val_nonneg, Hq|].
    split; [rewrite (py_int_ok _ _ HM); apply digits_val_nonneg, Hf|].
    split; [|split].
    + intros f n t -> Hfn Hft Hpos. apply as_number_float in Hn as ->.
      rewrite (py_mul_float_int f N n Hfn), bind_ok_eq.
      rewrite (py_truediv_float_int _ _ t Hft (of_int_nonzero (N + M) t ltac:(lia) Hft)), bind_ok_eq.
      rewrite !py_round2_float, !bind_ok_eq.
      eexists. split; [reflexivity|]. by simplify_map_eq.
    + intros f -> Hfn. apply as_number_float in Hn as ->.
      unfold py_mul. simpl. by rewrite Hfn.
    + intros z -> Hpos Hfin.
      rewrite (py_mul_int_int price z N Hn), bind_ok_eq.
      rewrite (py_truediv_int_int (z * N) (N + M) ltac:(lia) Hfin), bind_ok_eq.
      change (py_round2 (VInt ?k)) with (Ok (VInt k) : result value).
      rewrite bind_ok_eq, py_round2_float, bind_ok_eq.
      eexists. split; [reflexivity|]. by simplify_map_eq.
  - intros text m Hm. exists [], (tail (entries subclasses)).
    split; [reflexivity|]. split; [constructor|exact Hm].
  - intros item.
    exists (<["digital_coupon_price" := VStr ""]>
              (<["unit_price" := VFloat 8]> (<["volume_deals_price" := VFloat 40]> item))).
    split; [by_vm|]. split; by_vm.
  - intros item.
    exists (<["digital_coupon_price" := VStr ""]>
              (<["unit_price" := VFloat 8.55]>
                 (<["volume_deals_price" := VFloat 34.2]> item))).
    split; [by_vm|]. split; [by_vm|]. split; [by_vm|]. split; by_vm.
Qed.

(** "Buy 1, Get 1 Free" on a record whose regular price is the float
    2.49: the total is 2.49, and the unit price is the double nearest to
    1.245, which lies above it and rounds to 1.25. *)
Lemma C4_buy_get_free_deal_witness :
  let item : record :=
    {[ "volume_deals_description" := VStr "Buy 1, Get 1 Free"; "regular_price" := VFloat 2.49 ]} in
  ∃ out,
    outcome (run_pass Deal subclasses item item) = Ok out ∧
    out !! "volume_deals_price" = Some (VFloat 2.49) ∧
    out !! "unit_price" = Some (VFloat 1.25).
Proof.
  intros item.
  pose (m := (<["free" := [ "1"%char ]]> (<["quantity" := [ "1"%char ]]> ∅) : captures)).
  destruct (proj1 C4_buy_get_free_deal subclasses item "Buy 1, Get 1 Free" m
              (VFloat 2.49) (NFloat 2.49)) as (qs & fs & Gq & Gf & _ & _ & _ & H).
  - by_vm.
  - exists [], (tail (entries subclasses)).
    split; [reflexivity|]. split; [constructor|by_vm].
  - by_vm.
  - reflexivity.
  - assert (qs = [ "1"%char ]) as -> by (by invert Gq).
    assert (fs = [ "1"%char ]) as -> by (by invert Gf).
    destruct (H 1%Z 1%Z eq_refl eq_refl) as (_ & _ & Hfloat & _).
    destruct (Hfloat 2.49%float 1%float 2%float eq_refl eq_refl eq_refl ltac:(lia))
      as (out & Hout & Hv & Hu).
    exists out. split; [exact Hout|]. split; [rewrite Hv; by_vm|rewrite Hu; by_vm].
Defined.

(** C4 as stated fails: "Buy 0, Get 0 Free" matches the pattern, and the
    deal pass divides by the total quantity 0 instead of setting the two
    prices. *)
Lemma C4_counterexample :
  let item : record :=
    {[ "volume_deals_description" := VStr "Buy 0, Get 0 Free"; "regular_price" := VFloat 10 ]} in
  found BuyGetFreeProcessor.pattern_free "Buy 0, Get 0 Free"
    (<["free" := [ "0"%char ]]> (<["quantity" := [ "0"%char ]]> ∅)) ∧
  outcome (run_pass Deal subclasses item item) = Raise ZeroDivisionError ∧
  outcome (process_single_item subclasses item) = Raise ZeroDivisionError.
Proof. intros item. repeat apply conj; by_vm. Qed.

(** ** Letter case *)

Lemma upper_char_not_small x : is_small_letter (upper_char x) = false.
Proof.
  unfold upper_char, is_small_letter.
  destruct ((97 <=? nat_of_ascii x)%nat && (nat_of_ascii x <=? 122)%nat) eqn:E; [|done].
  apply andb_true_iff in E as [H1 H2]. apply Nat.leb_le in H1, H2.
  rewrite nat_ascii_embedding by lia.
  apply andb_false_iff. left. apply Nat.leb_gt. lia.
Qed.

Lemma small_letter_not_in_upper c s :
  is_small_letter c = true → c ∉ map upper_char s.
Proof.
  intros Hc Hin. apply list_elem_of_In, in_map_iff in Hin as (x & <- & _).
  by rewrite upper_char_not_small in Hc.
Qed.

(** A text in capitals holds no match of a pattern that requires a small
    letter. *)
Lemma no_match_upper pattern c text :
  c ∈ required pattern → is_small_letter c = true → no_match pattern (upper text).
Proof.
  intros Hreq Hc. unfold no_match, upper. rewrite list_ascii_of_string_of_list_ascii.
  eapply search_from_required; [exact Hreq|]. by apply small_letter_not_in_upper.
Qed.

Lemma catalog_pattern_small_letter p r :
  p ∈ subclasses → r ∈ patterns p → ∃ c, c ∈ required r ∧ is_small_letter c = true.
Proof.
  intros Hp Hr.
  destruct (registered_cases p Hp) as [-> | [-> | [-> | ->]]]; simpl in Hr;
    repeat (apply elem_of_cons in Hr as [-> | Hr]); try (by apply elem_of_nil in Hr).
  - exists "u"%char. split; [|done]. apply list_elem_of_In. simpl. tauto.
  - exists "u"%char. split; [|done]. apply list_elem_of_In. simpl. tauto.
  - exists "o"%char. split; [|done]. apply list_elem_of_In. simpl. tauto.
  - exists "l"%char. split; [|done]. apply list_elem_of_In. simpl. tauto.
  - exists "a"%char. split; [|done]. apply list_elem_of_In. simpl. tauto.
Qed.

(** C6, as the code has it.  Matching is case-sensitive ([re.search] is
    called without flags): a description matches a pattern only if it
    holds every character the pattern requires, in the very case the
    pattern writes it; and since each catalog pattern requires a small
    letter, a description written in capitals matches no catalog
    pattern. *)
Theorem C6_matching_is_case_sensitive :
  (∀ (pattern : regex) (text : string) (m : captures) (c : ascii),
     found pattern text m → c ∈ required pattern → c ∈ list_ascii_of_string text) ∧
  (∀ (catalog : list Processor) (text : string),
     (∀ q, q ∈ catalog → q ∈ subclasses) → selects_none catalog (upper text)).
Proof.
  split.
  - intros pattern text m c Hm Hc.
    destruct (decide (c ∈ list_ascii_of_string text)) as [|Hn]; [done|].
    unfold found in Hm. by rewrite (search_from_required _ _ _ Hc Hn) in Hm.
  - intros catalog text Hcat. apply Forall_forall. intros [p r] He.
    apply entries_elem in He as [Hp Hr].
    destruct (catalog_pattern_small_letter p r (Hcat p Hp) Hr) as (c & Hc & Hs).
    by eapply no_match_upper.
Qed.

Lemma C6_matching_is_case_sensitive_witness :
  "G"%char ∈ list_ascii_of_string "Buy 4, Get 1 Free".
Proof.
  apply (proj1 C6_matching_is_case_sensitive BuyGetFreeProcessor.pattern_free
           "Buy 4, Get 1 Free"
           (<["free" := [ "1"%char ]]> (<["quantity" := [ "4"%char ]]> ∅)) "G"%char).
  - by_vm.
  - apply list_elem_of_In. simpl. tauto.
Defined.

(** C6 as stated fails: two descriptions that differ only in letter case,
    one selecting the Buy N Get M Free strategy, the other matching no
    pattern of the catalog. *)
Lemma C6_counterexample :
  same_up_to_case "Buy 4, Get 1 Free" "buy 4, get 1 free" ∧
  selects subclasses "Buy 4, Get 1 Free"
    BuyGetFreeProcessor.processor BuyGetFreeProcessor.pattern_free
    (<["free" := [ "1"%char ]]> (<["quantity" := [ "4"%char ]]> ∅)) ∧
  no_match BuyGetFreeProcessor.pattern_free "buy 4, get 1 free" ∧
  selects_none subclasses "buy 4, get 1 free".
Proof.
  split; [reflexivity|]. split; [|split; [by_vm|]].
  - exists [], (tail (entries subclasses)).
    split; [reflexivity|]. split; [constructor|by_vm].
  - repeat (apply Forall_cons; split; [by_vm|]). constructor.
Qed.

(** ** Buy N Get M Free, coupon mode *)

Lemma py_or_falsy item k b : falsy_field item k → py_or (item !! k) b = b.
Proof. unfold falsy_field, py_or. destruct (item !! k); [by intros ->|done]. Qed.

Lemma py_or_truthy item k v b : truthy_field item k v → py_or (item !! k) b = Some v.
Proof. unfold py_or. by intros [-> ->]. Qed.

Lemma falsy_or_truthy item k : falsy_field item k ∨ ∃ v, truthy_field item k v.
Proof.
  unfold falsy_field, truthy_field. destruct (item !! k) as [v|]; [|by left].
  destruct (truthy v) eqn:E; [right; by exists v | by left].
Qed.

Lemma base_choice_total item : ∃ c, base_choice item c.
Proof.
  destruct (falsy_or_truthy item "unit_price") as [Hu | (v & Hu)];
    [|by exists (Some v); apply choose_unit].
  destruct (falsy_or_truthy item "sale_price") as [Hs | (v & Hs)];
    [|by exists (Some v); apply choose_sale].
  destruct (falsy_or_truthy item "regular_price") as [Hr | (v & Hr)];
    [|by exists (Some v); apply choose_regular].
  exists None. by apply choose_none.
Qed.

(** The base price follows the choice: nothing truthy gives 0, a truthy
    value is handed to [float]. *)
Lemma coupon_base_price_choice item c :
  base_choice item c →
  BuyGetFreeProcessor.coupon_base_price item =
    match c with
    | Some v => q ← py_float v; Ok (VFloat q)
    | None => Ok (VInt 0)
    end.
Proof.
  unfold BuyGetFreeProcessor.coupon_base_price.
  destruct 1 as [v Hu | v Hu Hs | v Hu Hs Hr | Hu Hs Hr].
  - rewrite (py_or_truthy _ _ _ _ Hu).
    change (default (VInt 0) (Some v)) with v. cbv zeta. by destruct Hu as [_ ->].
  - rewrite (py_or_falsy _ _ _ Hu), (py_or_truthy _ _ _ _ Hs).
    change (default (VInt 0) (Some v)) with v. cbv zeta. by destruct Hs as [_ ->].
  - rewrite (py_or_falsy _ _ _ Hu), (py_or_falsy _ _ _ Hs).
    unfold get_default. destruct Hr as [-> Hr].
    change (default (VInt 0) (Some (default (VInt 0) (Some v)))) with v. cbv zeta.
    by rewrite Hr.
  - rewrite (py_or_falsy _ _ _ Hu), (py_or_falsy _ _ _ Hs).
    unfold get_default, falsy_field in *. destruct (item !! "regular_price") as [v|].
    + change (default (VInt 0) (Some (default (VInt 0) (Some v)))) with v. cbv zeta.
      by rewrite Hr.
    + done.
Qed.

Lemma strip_currency_text s : ∃ t, strip ("$"%char :: s) = "$"%char :: t.
Proof.
  unfold strip. simpl lstrip at 2.
  change (is_blank "$") with false. cbv iota.
  destruct (lstrip (rev ("$"%char :: s))) as [|c r] eqn:E.
  - exfalso. simpl in E.
    assert (G : ∀ l, lstrip (l ++ ["$"%char]) ≠ []).
    { induction l as [|x l IH]; simpl; [done|]. by destruct (is_blank x). }
    by apply (G (rev s)).
  - assert (G : ∀ l, ∃ t, rev (lstrip (l ++ ["$"%char])) = "$"%char :: t).
    { induction l as [|x l IH]; simpl; [by exists []|].
      destruct (is_blank x); [exact IH|].
      change (x :: l ++ ["$"%char]) with ((x :: l) ++ ["$"%char]).
      rewrite rev_app_distr. simpl. eauto. }
    simpl in E. rewrite <- E. apply G.
Qed.

(** No text that starts with a dollar sign is a float. *)
Lemma float_of_currency_text s : float_of_text ("$"%char :: s) = Raise ValueError.
Proof.
  unfold float_of_text, Float.of_text.
  destruct (strip_currency_text s) as (t & ->). simpl without_underscores.
  destruct (without_underscores "$" t) as [b|]; [|done]. simpl.
  destruct (split_at_exponent b) as [mp ep]. unfold Float.mantissa. simpl.
  destruct (split_at_dot mp) as [ip [fp|]]; done.
Qed.

Lemma py_float_number v n : as_number v = Some n → py_float v = to_float n.
Proof. destruct v; simpl; intros H; by invert H. Qed.

(** C7, as the code has it.  In coupon mode of Buy N Get M the base price
    is read from the first truthy value among [unit_price], [sale_price]
    and [regular_price] (an absent field, a zero and an empty text are
    passed over) and is 0 when there is none.  A float is used as it is
    and an [int] becomes the float [float] makes of it; a text goes to
    [float] unchanged, so the amounts the patterns know are read, and
    nothing is stripped: a text that starts with a currency symbol is
    rejected with [ValueError]. *)
Theorem C7_coupon_base_price :
  ∀ (item : record),
    (∃ c, base_choice item c) ∧
    (∀ c, base_choice item c →
       match c with
       | None => BuyGetFreeProcessor.coupon_base_price item = Ok (VInt 0)
       | Some v =>
           (∀ f, v = VFloat f →
              BuyGetFreeProcessor.coupon_base_price item = Ok (VFloat f)) ∧
           (∀ n, as_number v = Some n →
              BuyGetFreeProcessor.coupon_base_price item = f ← to_float n; Ok (VFloat f)) ∧
           (∀ s, v = VStr s →
              BuyGetFreeProcessor.coupon_base_price item =
                q ← float_of_text (list_ascii_of_string s); Ok (VFloat q)) ∧
           (∀ s, v = VStr s → numeral (list_ascii_of_string s) →
              ∃ q, BuyGetFreeProcessor.coupon_base_price item = Ok (VFloat q)) ∧
           (∀ s, v = VStr (String "$" s) →
              BuyGetFreeProcessor.coupon_base_price item = Raise ValueError)
       end).
Proof.
  intros item. split; [apply base_choice_total|].
  intros c Hc. rewrite (coupon_base_price_choice item c Hc). destruct c as [v|]; [|done].
  split; [|split; [|split; [|split]]].
  - by intros f ->.
  - intros n Hn. by rewrite (py_float_number v n Hn).
  - by intros s ->.
  - intros s -> Hs. destruct (float_of_numeral _ Hs) as (n & scale & Hq & _).
    eexists. simpl. by rewrite Hq.
  - intros s ->. simpl. by rewrite float_of_currency_text.
Qed.

(** No unit price, a sale price of 4.99 as a number. *)
Lemma C7_coupon_base_price_witness :
  let item : record := {[ "sale_price" := VFloat 4.99; "regular_price" := VFloat 6 ]} in
  BuyGetFreeProcessor.coupon_base_price item = Ok (VFloat 4.99).
Proof.
  intros item.
  refine (proj1 (proj2 (C7_coupon_base_price item) (Some (VFloat 4.99)) _) 4.99%float eq_refl).
  apply choose_sale; [exact I|]. split; [by_vm|reflexivity].
Defined.

(** C7 as stated fails: with no unit price and the sale price given as
    the text "$4.99" the base price is not 4.99 and not 0; [float] raises
    and the exception leaves the coupon pass. *)
Lemma C7_counterexample :
  let item : record :=
    {[ "digital_coupon_short_description" := VStr "Buy 2 Get 1 Free";
       "sale_price" := VStr "$4.99"; "regular_price" := VStr "$6.00" ]} in
  BuyGetFreeProcessor.coupon_base_price item = Raise ValueError ∧
  outcome (run_pass Coupon subclasses item item) = Raise ValueError ∧
  outcome (process_single_item subclasses item) = Raise ValueError.
Proof. intros item. repeat apply conj; by_vm. Qed.

Lemma bind_ext {A B : Type} (r : result A) (f g : A → result B) :
  (∀ a, f a = g a) → r ≫= f = r ≫= g.
Proof. intros H. destruct r; simpl; [apply H|done]. Qed.

Lemma discount_captures_lookup qs fs ds :
  let m : captures := <["discount" := ds]> (<["free" := fs]> (<["quantity" := qs]> ∅)) in
  group m "quantity" = Ok qs ∧ group m "free" = Ok fs ∧
  group m "discount" = Ok ds ∧ groupdict_get m "discount" = Some ds.
Proof. unfold group, groupdict_get. by simplify_map_eq. Qed.

Lemma group_truthy_digits ds : digits ds → BuyGetFreeProcessor.group_truthy (Some ds) = true.
Proof. intros [Hne _]. by destruct ds. Qed.

(** The two branches of the coupon computation, as the code has them. *)
Lemma BuyGetFree_coupon_free item qs fs N M :
  py_int qs = Ok N → py_int fs = Ok M →
  BuyGetFreeProcessor.calculate_coupon item (<["free" := fs]> (<["quantity" := qs]> ∅)) =
    price ← BuyGetFreeProcessor.coupon_base_price item;
    total ← py_mul price (VInt N);
    unit ← py_truediv total (VInt (N + M));
    u ← py_round2 unit;
    Ok (<["digital_coupon_price" := total]> (<["unit_price" := u]> item)).
Proof.
  intros Hq Hf. destruct (free_captures_lookup qs fs) as (Gq & Gf & Gd).
  unfold BuyGetFreeProcessor.calculate_coupon.
  rewrite Gq, Gf, Gd, !bind_ok_eq, Hq, Hf, !bind_ok_eq.
  cbv beta iota delta [BuyGetFreeProcessor.group_truthy].
  by destruct (BuyGetFreeProcessor.coupon_base_price item).
Qed.

Lemma BuyGetFree_coupon_discount item qs fs ds N M X :
  digits ds → py_int qs = Ok N → py_int fs = Ok M → py_int ds = Ok X →
  BuyGetFreeProcessor.calculate_coupon item
      (<["discount" := ds]> (<["free" := fs]> (<["quantity" := qs]> ∅))) =
    discount_decimal ← py_truediv (VInt X) (VInt 100);
    price ← BuyGetFreeProcessor.coupon_base_price item;
    full_price_total ← py_mul price (VInt N);
    keep ← py_sub (VInt 1) discount_decimal;
    discounted ← py_mul price keep;
    discounted_total ← py_mul discounted (VInt M);
    total ← py_add full_price_total discounted_total;
    unit ← py_truediv total (VInt (N + M));
    u ← py_round2 unit;
    Ok (<["digital_coupon_price" := total]> (<["unit_price" := u]> item)).
Proof.
  intros Hd Hq Hf Hx. destruct (discount_captures_lookup qs fs ds) as (Gq & Gf & _ & Gd).
  unfold BuyGetFreeProcessor.calculate_coupon.
  rewrite Gq, Gf, Gd, !bind_ok_eq, Hq, Hf, !bind_ok_eq.
  rewrite (group_truthy_digits ds Hd). change (default [] (Some ds)) with ds.
  rewrite Hx, bind_ok_eq.
  destruct (py_truediv (VInt X) (VInt 100)) as [dd|e]; [|done]. rewrite !bind_ok_eq.
  destruct (BuyGetFreeProcessor.coupon_base_price item) as [price|e]; [|done].
  rewrite !bind_ok_eq.
  destruct (py_mul price (VInt N)) as [full|e]; [|done]. rewrite !bind_ok_eq.
  destruct (py_sub (VInt 1) dd) as [keep|e]; [|done]. rewrite !bind_ok_eq.
  destruct (py_mul price keep) as [disc|e]; [|done]. rewrite !bind_ok_eq.
  destruct (py_mul disc (VInt M)) as [dt|e]; [|done]. rewrite !bind_ok_eq.
  by destruct (py_add full dt).
Qed.

(** C10.  In the Buy N Get M coupon computation a [unit_price] that is
    falsy (0, 0.0, the empty text) counts as absent: the base price and
    the whole result are those of the same record without [unit_price].
    The price then is [float] of [sale_price] when that is truthy, else of
    [regular_price] when that is, and the coupon is computed from it: on a
    match of [Buy N, Get M Free] the [digital_coupon_price] is that price
    times [N] and the [unit_price] the total over [N + M], rounded; on a
    match with a discount group the total is the price times [N] plus the
    discounted price times [M].  With no truthy price at all the base is
    the integer 0, and a unit price of 0 computed by the deal pass is never
    what the coupon starts from. *)
Theorem C10_falsy_unit_price_ignored :
  ∀ (item : record) (m : captures) (v : value),
    item !! "unit_price" = Some v →
    truthy v = false →
    (truthy (VInt 0) = false ∧ truthy (VFloat 0) = false ∧ truthy (VStr "") = false) ∧
    BuyGetFreeProcessor.coupon_base_price item =
      BuyGetFreeProcessor.coupon_base_price (delete "unit_price" item) ∧
    BuyGetFreeProcessor.calculate_coupon item m =
      BuyGetFreeProcessor.calculate_coupon (delete "unit_price" item) m ∧
    (∀ base b,
       truthy_field item "sale_price" base ∨
       (falsy_field item "sale_price" ∧ truthy_field item "regular_price" base) →
       py_float base = Ok b →
       BuyGetFreeProcessor.coupon_base_price item = Ok (VFloat b) ∧
       (∀ text N M n t,
          found BuyGetFreeProcessor.pattern_free text m →
          group m "quantity" ≫= py_int = Ok N → group m "free" ≫= py_int = Ok M →
          Float.of_int N = Ok n → Float.of_int (N + M) = Ok t → (0 < N + M)%Z →
          BuyGetFreeProcessor.calculate_coupon item m =
            Ok (<["digital_coupon_price" := VFloat (Float.mul b n)]>
                  (<["unit_price" := VFloat (Float.round2 (Float.div (Float.mul b n) t))]>
                     item))) ∧
       (∀ text N M X n k t dd,
          found BuyGetFreeProcessor.pattern_discount text m →
          group m "quantity" ≫= py_int = Ok N → group m "free" ≫= py_int = Ok M →
          group m "discount" ≫= py_int = Ok X →
          py_truediv (VInt X) (VInt 100) = Ok (VFloat dd) →
          Float.of_int N = Ok n → Float.of_int M = Ok k → Float.of_int (N + M) = Ok t →
          (0 < N + M)%Z →
          let total :=
            Float.add (Float.mul b n) (Float.mul (Float.mul b (Float.sub 1 dd)) k) in
          BuyGetFreeProcessor.calculate_coupon item m =
            Ok (<["digital_coupon_price" := VFloat total]>
                  (<["unit_price" := VFloat (Float.round2 (Float.div total t))]> item)))) ∧
    (falsy_field item "sale_price" → falsy_field item "regular_price" →
     BuyGetFreeProcessor.coupon_base_price item = Ok (VInt 0) ∧
     (∀ text N M,
        found BuyGetFreeProcessor.pattern_free text m →
        group m "quantity" ≫= py_int = Ok N → group m "free" ≫= py_int = Ok M →
        (0 < N + M)%Z →
        BuyGetFreeProcessor.calculate_coupon item m =
          Ok (<["digital_coupon_price" := VInt 0]> (<["unit_price" := VFloat 0]> item)))).
Proof.
  intros item m v Hu Hv.
  assert (Hf : falsy_field item "unit_price") by (unfold falsy_field; by rewrite Hu).
  assert (Hbase : BuyGetFreeProcessor.coupon_base_price item =
                  BuyGetFreeProcessor.coupon_base_price (delete "unit_price" item)).
  { unfold BuyGetFreeProcessor.coupon_base_price, get_default.
    rewrite (py_or_falsy _ _ _ Hf), lookup_delete_eq, !lookup_delete_ne by done. done. }
  split; [by repeat apply conj|]. split; [exact Hbase|]. split; [|split].
  - unfold BuyGetFreeProcessor.calculate_coupon.
    apply bind_ext. intros quantity. apply bind_ext. intros free.
    assert (Hend : ∀ (c u : value),
      Ok (<["digital_coupon_price" := c]> (<["unit_price" := u]> item)) =
      Ok (<["digital_coupon_price" := c]> (<["unit_price" := u]> (delete "unit_price" item)))
        :> result record).
    { intros c u. by rewrite insert_delete_eq. }
    destruct (BuyGetFreeProcessor.group_truthy (groupdict_get m "discount")).
    + rewrite <- Hbase.
      match goal with |- ?l ≫= _ = _ => destruct l as [total|e]; [|done] end.
      rewrite !bind_ok_eq. apply bind_ext. intros unit. apply bind_ext. intros r. apply Hend.
    + rewrite <- Hbase.
      match goal with |- ?l ≫= _ = _ => destruct l as [total|e]; [|done] end.
      rewrite !bind_ok_eq. apply bind_ext. intros unit. apply bind_ext. intros r. apply Hend.
  - intros base b Hsrc Hb.
    assert (Hprice : BuyGetFreeProcessor.coupon_base_price item = Ok (VFloat b)).
    { destruct Hsrc as [Hs | [Hs Hr]].
      - rewrite (coupon_base_price_choice item (Some base) (choose_sale item base Hf Hs)).
        by rewrite Hb.
      - rewrite (coupon_base_price_choice item (Some base) (choose_regular item base Hf Hs Hr)).
        by rewrite Hb. }
    split; [exact Hprice|]. split.
    + intros text N M n t Hm HN HM Hn Ht Hpos.
      apply pattern_free_captures in Hm as (qs & fs & Hq & Hfs & ->).
      destruct (free_captures_lookup qs fs) as (Gq & Gf & _).
      rewrite Gq, bind_ok_eq in HN. rewrite Gf, bind_ok_eq in HM.
      rewrite (BuyGetFree_coupon_free item qs fs N M HN HM), Hprice, bind_ok_eq.
      rewrite (py_mul_float_int b N n Hn), bind_ok_eq.
      rewrite (py_truediv_float_int _ _ t Ht (of_int_nonzero (N + M) t ltac:(lia) Ht)).
      by rewrite bind_ok_eq, py_round2_float, bind_ok_eq.
    + intros text N M X n k t dd Hm HN HM HX Hdd Hn Hk Ht Hpos total.
      apply pattern_discount_captures in Hm as (qs & fs & ds & Hq & Hfs & Hds & ->).
      destruct (discount_captures_lookup qs fs ds) as (Gq & Gf & Gd & _).
      rewrite Gq, bind_ok_eq in HN. rewrite Gf, bind_ok_eq in HM.
      rewrite Gd, bind_ok_eq in HX.
      rewrite (BuyGetFree_coupon_discount item qs fs ds N M X Hds HN HM HX).
      rewrite Hdd, bind_ok_eq, Hprice, bind_ok_eq.
      rewrite (py_mul_float_int b N n Hn), bind_ok_eq.
      rewrite (py_sub_number_float (VInt 1) (NInt 1) 1%float dd eq_refl eq_refl), bind_ok_eq.
      rewrite py_mul_float_float, bind_ok_eq.
      rewrite (py_mul_float_int _ M k Hk), bind_ok_eq.
      rewrite py_add_float_float, bind_ok_eq.
      rewrite (py_truediv_float_int _ _ t Ht (of_int_nonzero (N + M) t ltac:(lia) Ht)).
      by rewrite bind_ok_eq, py_round2_float, bind_ok_eq.
  - intros Hs Hr.
    assert (Hprice : BuyGetFreeProcessor.coupon_base_price item = Ok (VInt 0)).
    { by rewrite (coupon_base_price_choice item None (choose_none item Hf Hs Hr)). }
    split; [exact Hprice|].
    intros text N M Hm HN HM Hpos.
    apply pattern_free_captures in Hm as (qs & fs & Hq & Hfs & ->).
    destruct (free_captures_lookup qs fs) as (Gq & Gf & _).
    rewrite Gq, bind_ok_eq in HN. rewrite Gf, bind_ok_eq in HM.
    rewrite (BuyGetFree_coupon_free item qs fs N M HN HM), Hprice, bind_ok_eq.
    rewrite (py_mul_int_int (VInt 0) 0 N eq_refl), bind_ok_eq.
    change (0 * N)%Z with 0%Z.
    assert (Hq0 : Float.int_div 0 (N + M) = 0%float).
    { unfold Float.int_div. destruct (Z.ltb_spec (N + M) 0); [lia|]. done. }
    rewrite (py_truediv_int_int 0 (N + M) ltac:(lia)) by (by rewrite Hq0).
    by rewrite Hq0.
Qed.

(** A deal pass that computed a unit price of 0 and a sale price of 5:
    "Buy 2, Get 1 Free" as a coupon costs 10 in all and 3.33 a piece. *)
Lemma C10_falsy_unit_price_ignored_witness :
  let item : record := {[ "unit_price" := VFloat 0; "sale_price" := VFloat 5 ]} in
  let m : captures := <["free" := [ "1"%char ]]> (<["quantity" := [ "2"%char ]]> ∅) in
  BuyGetFreeProcessor.calculate_coupon item m =
    Ok (<["digital_coupon_price" := VFloat 10]> (<["unit_price" := VFloat 3.33]> item)).
Proof.
  intros item m.
  destruct (C10_falsy_unit_price_ignored item m (VFloat 0)) as (_ & _ & _ & H & _);
    [by_vm|reflexivity|].
  destruct (H (VFloat 5) 5%float) as (_ & Hfree & _); [left; split; [by_vm|reflexivity]|reflexivity|].
  rewrite (Hfree "Buy 2, Get 1 Free" 2%Z 1%Z 2%float 3%float);
    [by_vm | by_vm | by_vm | by_vm | by_vm | by_vm | lia].
Defined.

(** ** Price per weight *)

Lemma lb_group_float s m :
  search_from PricePerLbProcessor.pattern s = Some m →
  ∃ X, group_float m "price_per_lb" = Ok (VFloat X) ∧ Float.non_negative X.
Proof.
  intros H. apply lb_pattern_captures in H as (w & Hw & ->).
  by apply group_float_numeral.
Qed.

Lemma PricePerLb_deal_number item m X w w' :
  group_float m "price_per_lb" = Ok (VFloat X) →
  as_number (default (VInt 1) (item !! "weight")) = Some w →
  to_float w = Ok w' →
  PricePerLbProcessor.calculate_deal item m =
    Ok (<["digital_coupon_price" := VStr ""]>
          (<["unit_price" := VFloat (Float.round2 X)]>
             (<["volume_deals_price" := VFloat (Float.round2 (Float.mul X w'))]> item))).
Proof.
  intros Hx Hn Hw. unfold PricePerLbProcessor.calculate_deal, get_default.
  rewrite Hx, bind_ok_eq.
  by rewrite (py_mul_float_number X _ w w' Hn Hw), bind_ok_eq.
Qed.

Lemma PricePerLb_deal_overflow item m X w e :
  group_float m "price_per_lb" = Ok (VFloat X) →
  as_number (default (VInt 1) (item !! "weight")) = Some w →
  to_float w = Raise e →
  PricePerLbProcessor.calculate_deal item m = Raise e.
Proof.
  intros Hx Hn Hw. unfold PricePerLbProcessor.calculate_deal, get_default.
  rewrite Hx, bind_ok_eq.
  by rewrite (py_mul_float_number_raise X _ w e Hn Hw).
Qed.

Lemma PricePerLb_deal_text item m X s :
  group_float m "price_per_lb" = Ok (VFloat X) →
  item !! "weight" = Some (VStr s) →
  PricePerLbProcessor.calculate_deal item m = Raise TypeError.
Proof.
  intros Hx Hw. unfold PricePerLbProcessor.calculate_deal, get_default.
  by rewrite Hx, bind_ok_eq, Hw.
Qed.

(** C8, as the code has it.  When the catalog selects the price-per-weight
    pattern [$X/lb] for the deal description, [X] is read as a float and
    the weight used is the record's [weight] field as it is, and 1 when
    the record has no such field.  When that weight is a number, taken as
    the float [w], the deal pass yields
    [volume_deals_price = round(X * w, 2)], with the product and the
    rounding those of doubles, [unit_price = round(X, 2)] and the
    empty-text [digital_coupon_price]; an [int] weight too large for a
    float is an [OverflowError].  Nothing parses a weight given as a text:
    on such a record the strategy raises [TypeError]. *)
Theorem C8_price_per_lb_deal :
  ∀ (catalog : list Processor) (item : record) (text : string) (m : captures),
    item !! "volume_deals_description" = Some (VStr text) →
    selects catalog text PricePerLbProcessor.processor PricePerLbProcessor.pattern m →
    ∃ X : float,
      group_float m "price_per_lb" = Ok (VFloat X) ∧ Float.non_negative X ∧
      (∀ w w', as_number (default (VInt 1) (item !! "weight")) = Some w →
         to_float w = Ok w' →
         ∃ out,
           outcome (run_pass Deal catalog item item) = Ok out ∧
           out !! "volume_deals_price" = Some (VFloat (Float.round2 (Float.mul X w'))) ∧
           out !! "unit_price" = Some (VFloat (Float.round2 X)) ∧
           out !! "digital_coupon_price" = Some (VStr "")) ∧
      (∀ w e, as_number (default (VInt 1) (item !! "weight")) = Some w →
         to_float w = Raise e →
         e = OverflowError ∧ outcome (run_pass Deal catalog item item) = Raise OverflowError) ∧
      (∀ s, item !! "weight" = Some (VStr s) →
         outcome (run_pass Deal catalog item item) = Raise TypeError).
Proof.
  intros catalog item text m Hk Hsel.
  assert (Hm : found PricePerLbProcessor.pattern text m).
  { by destruct Hsel as (? & ? & _ & _ & ?). }
  destruct (lb_group_float _ _ Hm) as (X & HX & Hpos). exists X.
  split; [exact HX|]. split; [exact Hpos|].
  rewrite (run_pass_selects_outcome Deal _ _ _ _ _ _ _ Hk (description_of_field Deal _ _ Hk) Hsel).
  simpl calculate. split; [|split].
  - intros w w' Hw Hw'. rewrite (PricePerLb_deal_number item m X w w' HX Hw Hw').
    eexists. split; [reflexivity|]. by simplify_map_eq.
  - intros w e Hw He. assert (e = OverflowError) as ->.
    { destruct w; [by apply of_int_raise in He|done]. }
    split; [done|]. by apply (PricePerLb_deal_overflow item m X w).
  - intros s Hs. by eapply PricePerLb_deal_text.
Qed.

(** "$0.53/lb" on a record that weighs half a pound: the product of the
    doubles 0.53 and 0.5 lies above 0.265 and rounds to 0.27. *)
Lemma C8_price_per_lb_deal_witness :
  let item : record :=
    {[ "volume_deals_description" := VStr "$0.53/lb"; "weight" := VFloat 0.5 ]} in
  ∃ out,
    outcome (run_pass Deal subclasses item item) = Ok out ∧
    out !! "volume_deals_price" = Some (VFloat 0.27) ∧
    out !! "unit_price" = Some (VFloat 0.53) ∧
    out !! "digital_coupon_price" = Some (VStr "").
Proof.
  intros item.
  pose (m := ({[ "price_per_lb" := list_ascii_of_string "0.53" ]} : captures)).
  destruct (C8_price_per_lb_deal subclasses item "$0.53/lb" m) as (X & HX & _ & H & _).
  - by_vm.
  - exists (take 3 (entries subclasses)), (drop 4 (entries subclasses)).
    split; [reflexivity|]. split; [|by_vm].
    repeat (apply Forall_cons; split; [by_vm|]). constructor.
  - assert (X = 0.53%float) as ->.
    { assert (E : group_float m "price_per_lb" = Ok (VFloat 0.53)) by by_vm.
      rewrite E in HX. by invert HX. }
    destruct (H (NFloat 0.5) 0.5%float eq_refl eq_refl) as (out & Hout & Hv & Hu & Hc).
    exists out. split; [exact Hout|]. split; [rewrite Hv; by_vm|]. split; [rewrite Hu; by_vm|exact Hc].
Defined.

(** C8 as stated fails: with the weight given as the text "2 lb" the deal
    pass does not yield 7.00; the multiplication of a float by a text
    raises.  With the weight 2 as a number it yields 7.00. *)
Lemma C8_counterexample :
  let item : record :=
    {[ "volume_deals_description" := VStr "$3.50/lb"; "weight" := VStr "2 lb" ]} in
  let numeric : record :=
    {[ "volume_deals_description" := VStr "$3.50/lb"; "weight" := VInt 2 ]} in
  outcome (run_pass Deal subclasses item item) = Raise TypeError ∧
  outcome (process_single_item subclasses item) = Raise TypeError ∧
  outcome (run_pass Deal subclasses numeric numeric) =
    Ok (<["digital_coupon_price" := VStr ""]>
          (<["unit_price" := VFloat 3.5]> (<["volume_deals_price" := VFloat 7]> numeric))).
Proof. intros item numeric. repeat apply conj; by_vm. Qed.

(** C9.  A record without a [unit_price] whose deal description matches no
    pattern and whose coupon description selects the price-per-weight
    pattern: the coupon strategy looks [unit_price] up unguarded, so the
    strategy, the coupon pass and [process_single_item] raise [KeyError]
    and no updated record is produced. *)
Theorem C9_price_per_lb_coupon_key_error :
  ∀ (catalog : list Processor) (item : record) (deal_text text : string) (m : captures),
    description Deal item = VStr deal_text →
    selects_none catalog deal_text →
    item !! "digital_coupon_short_description" = Some (VStr text) →
    selects catalog text PricePerLbProcessor.processor PricePerLbProcessor.pattern m →
    item !! "unit_price" = None →
    PricePerLbProcessor.calculate_coupon item m = Raise (KeyError "unit_price") ∧
    outcome (run_pass Coupon catalog item item) = Raise (KeyError "unit_price") ∧
    outcome (process_single_item catalog item) = Raise (KeyError "unit_price").
Proof.
  intros catalog item deal_text text m Hd Hnone Hk Hsel Hu.
  assert (Hm : found PricePerLbProcessor.pattern text m).
  { by destruct Hsel as (? & ? & _ & _ & ?). }
  destruct (lb_group_float _ _ Hm) as (X & HX & _).
  assert (Hc : PricePerLbProcessor.calculate_coupon item m = Raise (KeyError "unit_price")).
  { unfold PricePerLbProcessor.calculate_coupon, getitem. by rewrite HX, bind_ok_eq, Hu. }
  assert (Hp : outcome (run_pass Coupon catalog item item) = Raise (KeyError "unit_price")).
  { by rewrite (run_pass_selects_outcome Coupon _ _ _ _ _ _ _ Hk
                  (description_of_field Coupon _ _ Hk) Hsel). }
  split; [exact Hc|]. split; [exact Hp|].
  rewrite process_single_item_outcome, (run_pass_unselected _ _ _ _ _ Hd Hnone).
  exact Hp.
Qed.

(** Such a record exists. *)
Lemma C9_price_per_lb_coupon_key_error_witness :
  let item : record :=
    {[ "volume_deals_description" := VStr "";
       "digital_coupon_short_description" := VStr "$1.99/lb";
       "weight" := VInt 2 ]} in
  let m : captures := {[ "price_per_lb" := list_ascii_of_string "1.99" ]} in
  PricePerLbProcessor.calculate_coupon item m = Raise (KeyError "unit_price") ∧
  outcome (run_pass Coupon subclasses item item) = Raise (KeyError "unit_price") ∧
  outcome (process_single_item subclasses item) = Raise (KeyError "unit_price").
Proof.
  intros item m.
  apply (C9_price_per_lb_coupon_key_error subclasses item "" "$1.99/lb" m).
  - by_vm.
  - repeat (apply Forall_cons; split; [by_vm|]). constructor.
  - by_vm.
  - exists (take 3 (entries subclasses)), (drop 4 (entries subclasses)).
    split; [reflexivity|]. split; [|by_vm].
    repeat (apply Forall_cons; split; [by_vm|]). constructor.
  - by_vm.
Defined.

(** ** More on the strategies *)

Lemma found_dollar text m :
  found DollarDiscountProcessor.pattern text m →
  ∃ X, group_float m "discount" = Ok (VFloat X) ∧ Float.non_negative X.
Proof.
  intros H. apply dollar_pattern_captures in H as (w & Hw & ->).
  by apply group_float_numeral.
Qed.

Lemma found_savings text m :
  found SavingsProcessor.pattern text m →
  ∃ X, group_float m "savings" = Ok (VFloat X) ∧ Float.non_negative X.
Proof.
  intros H. apply savings_pattern_captures in H as (w & Hw & ->).
  by apply group_float_numeral.
Qed.

Lemma found_lb text m :
  found PricePerLbProcessor.pattern text m →
  ∃ X, group_float m "price_per_lb" = Ok (VFloat X) ∧ Float.non_negative X.
Proof.
  intros H. apply lb_pattern_captures in H as (w & Hw & ->).
  by apply group_float_numeral.
Qed.

Lemma to_float_raise n e : to_float n = Raise e → e = OverflowError.
Proof. destruct n; [apply of_int_raise|done]. Qed.

(** X4.  [DollarDiscountProcessor.calculate_deal] on a match of [$X off]:
    the amount [X] is read as a float that is not negative; the price is
    the record's [price] field (0 when the record has none), not its sale
    or regular price.  When that price is a number, taken as the float
    [p], [volume_deals_price] becomes [round(p - X, 2)] and [unit_price]
    [round((p - X) / 1, 2)], in the arithmetic of doubles, and
    [digital_coupon_price] the empty text; an [int] price too large for a
    float raises [OverflowError] and a text price [TypeError]. *)
Theorem X4_dollar_discount_deal :
  ∀ (item : record) (text : string) (m : captures),
    found DollarDiscountProcessor.pattern text m →
    ∃ X : float,
      group_float m "discount" = Ok (VFloat X) ∧ Float.non_negative X ∧
      (∀ p p', as_number (default (VInt 0) (item !! "price")) = Some p →
         to_float p = Ok p' →
         DollarDiscountProcessor.calculate_deal item m =
           Ok (<["digital_coupon_price" := VStr ""]>
                 (<["unit_price" := VFloat (Float.round2 (Float.div (Float.sub p' X) 1))]>
                    (<["volume_deals_price" := VFloat (Float.round2 (Float.sub p' X))]>
                       item)))) ∧
      (∀ p e, as_number (default (VInt 0) (item !! "price")) = Some p →
         to_float p = Raise e →
         DollarDiscountProcessor.calculate_deal item m = Raise OverflowError) ∧
      (∀ s, item !! "price" = Some (VStr s) →
         DollarDiscountProcessor.calculate_deal item m = Raise TypeError).
Proof.
  intros item text m Hm. destruct (found_dollar text m Hm) as (X & HX & Hpos).
  exists X. split; [exact HX|]. split; [exact Hpos|].
  unfold DollarDiscountProcessor.calculate_deal, get_default. rewrite HX, bind_ok_eq.
  split; [|split].
  - intros p p' Hp Hp'. by rewrite (py_sub_number_float _ p p' X Hp Hp').
  - intros p e Hp He. rewrite (py_sub_number_float_raise _ p e X Hp He).
    by rewrite (to_float_raise p e He).
  - intros s Hs. by rewrite Hs.
Qed.

(** "$0.10 off" a price of 1.135: the difference of the two doubles lies
    below 1.035 and rounds to 1.03. *)
Lemma X4_dollar_discount_deal_witness :
  let item : record :=
    {[ "volume_deals_description" := VStr "$0.10 off"; "price" := VFloat 1.135 ]} in
  let m : captures := {[ "discount" := list_ascii_of_string "0.10" ]} in
  DollarDiscountProcessor.calculate_deal item m =
    Ok (<["digital_coupon_price" := VStr ""]>
          (<["unit_price" := VFloat 1.03]> (<["volume_deals_price" := VFloat 1.03]> item))).
Proof.
  intros item m.
  destruct (X4_dollar_discount_deal item "$0.10 off" m) as (X & HX & _ & H & _); [by_vm|].
  assert (X = 0.1%float) as ->.
  { assert (E : group_float m "discount" = Ok (VFloat 0.1)) by by_vm.
    rewrite E in HX. by invert HX. }
  rewrite (H (NFloat 1.135) 1.135%float eq_refl eq_refl). by_vm.
Defined.

(** X5.  [DollarDiscountProcessor.calculate_coupon] on a match of
    [$X off]: it reads the record's [price] field (0 when absent), never
    the unit price a deal pass left.  With a numeric price, taken as the
    float [p], it sets [unit_price] to [round((p - X) / 1, 2)] and
    [digital_coupon_price] to [round(X, 2)], in the arithmetic of doubles,
    and writes no other field; with a text price it raises [TypeError]. *)
Theorem X5_dollar_discount_coupon :
  ∀ (item : record) (text : string) (m : captures),
    found DollarDiscountProcessor.pattern text m →
    ∃ X : float,
      group_float m "discount" = Ok (VFloat X) ∧
      (∀ p p', as_number (default (VInt 0) (item !! "price")) = Some p →
         to_float p = Ok p' →
         DollarDiscountProcessor.calculate_coupon item m =
           Ok (<["digital_coupon_price" := VFloat (Float.round2 X)]>
                 (<["unit_price" := VFloat (Float.round2 (Float.div (Float.sub p' X) 1))]>
                    item))) ∧
      (∀ s, item !! "price" = Some (VStr s) →
         DollarDiscountProcessor.calculate_coupon item m = Raise TypeError).
Proof.
  intros item text m Hm. destruct (found_dollar text m Hm) as (X & HX & _).
  exists X. split; [exact HX|].
  unfold DollarDiscountProcessor.calculate_coupon, get_default. rewrite HX, bind_ok_eq. split.
  - intros p p' Hp Hp'. by rewrite (py_sub_number_float _ p p' X Hp Hp').
  - intros s Hs. by rewrite Hs.
Qed.

(** "$1.015 off" a price of 2: the coupon is 1.01 and the unit price 0.99,
    since the double nearest to 1.015 lies below it. *)
Lemma X5_dollar_discount_coupon_witness :
  let item : record :=
    {[ "digital_coupon_short_description" := VStr "$1.015 off"; "price" := VInt 2;
       "unit_price" := VFloat 3 ]} in
  let m : captures := {[ "discount" := list_ascii_of_string "1.015" ]} in
  DollarDiscountProcessor.calculate_coupon item m =
    Ok (<["digital_coupon_price" := VFloat 1.01]> (<["unit_price" := VFloat 0.99]> item)).
Proof.
  intros item m.
  destruct (X5_dollar_discount_coupon item "$1.015 off" m) as (X & HX & H & _); [by_vm|].
  assert (X = 1.015%float) as ->.
  { assert (E : group_float m "discount" = Ok (VFloat 1.015)) by by_vm.
    rewrite E in HX. by invert HX. }
  rewrite (H (NInt 2) 2%float eq_refl eq_refl). by_vm.
Defined.

(** X6.  [SavingsProcessor.calculate_deal] on a match of [Save $X]: with
    the record's [price] field a number (0 when absent), taken as the
    float [p], [volume_deals_price] becomes [round(p - X, 2)] and
    [unit_price] [round((p - X) / 1, 2)], in the arithmetic of doubles,
    and [digital_coupon_price] the empty text; with a text price the
    strategy raises [TypeError]. *)
Theorem X6_savings_deal :
  ∀ (item : record) (text : string) (m : captures),
    found SavingsProcessor.pattern text m →
    ∃ X : float,
      group_float m "savings" = Ok (VFloat X) ∧ Float.non_negative X ∧
      (∀ p p', as_number (default (VInt 0) (item !! "price")) = Some p →
         to_float p = Ok p' →
         SavingsProcessor.calculate_deal item m =
           Ok (<["digital_coupon_price" := VStr ""]>
                 (<["unit_price" := VFloat (Float.round2 (Float.div (Float.sub p' X) 1))]>
                    (<["volume_deals_price" := VFloat (Float.round2 (Float.sub p' X))]>
                       item)))) ∧
      (∀ s, item !! "price" = Some (VStr s) →
         SavingsProcessor.calculate_deal item m = Raise TypeError).
Proof.
  intros item text m Hm. destruct (found_savings text m Hm) as (X & HX & Hpos).
  exists X. split; [exact HX|]. split; [exact Hpos|].
  unfold SavingsProcessor.calculate_deal, get_default. rewrite HX, bind_ok_eq. split.
  - intros p p' Hp Hp'. by rewrite (py_sub_number_float _ p p' X Hp Hp').
  - intros s Hs. by rewrite Hs.
Qed.

(** "Save $0.10" on a price of 1.135 leaves 1.03. *)
Lemma X6_savings_deal_witness :
  let item : record :=
    {[ "volume_deals_description" := VStr "Save $0.10"; "price" := VFloat 1.135 ]} in
  let m : captures := {[ "savings" := list_ascii_of_string "0.10" ]} in
  SavingsProcessor.calculate_deal item m =
    Ok (<["digital_coupon_price" := VStr ""]>
          (<["unit_price" := VFloat 1.03]> (<["volume_deals_price" := VFloat 1.03]> item))).
Proof.
  intros item m.
  destruct (X6_savings_deal item "Save $0.10" m) as (X & HX & _ & H & _); [by_vm|].
  assert (X = 0.1%float) as ->.
  { assert (E : group_float m "savings" = Ok (VFloat 0.1)) by by_vm.
    rewrite E in HX. by invert HX. }
  rewrite (H (NFloat 1.135) 1.135%float eq_refl eq_refl). by_vm.
Defined.

(** X7.  [SavingsProcessor.calculate_coupon] on a match of [Save $X]: the
    base is the record's current [unit_price], and 0 when the record has
    none (no [KeyError] here).  With a numeric unit price, taken as the
    float [u], it sets [unit_price] to [round((u - X) / 1, 2)] and
    [digital_coupon_price] to [round(X, 2)], in the arithmetic of doubles,
    and writes no other field; with a text unit price, the empty-text
    sentinel included, it raises [TypeError]. *)
Theorem X7_savings_coupon :
  ∀ (item : record) (text : string) (m : captures),
    found SavingsProcessor.pattern text m →
    ∃ X : float,
      group_float m "savings" = Ok (VFloat X) ∧
      (∀ u u', as_number (default (VInt 0) (item !! "unit_price")) = Some u →
         to_float u = Ok u' →
         SavingsProcessor.calculate_coupon item m =
           Ok (<["digital_coupon_price" := VFloat (Float.round2 X)]>
                 (<["unit_price" := VFloat (Float.round2 (Float.div (Float.sub u' X) 1))]>
                    item))) ∧
      (∀ s, item !! "unit_price" = Some (VStr s) →
         SavingsProcessor.calculate_coupon item m = Raise TypeError).
Proof.
  intros item text m Hm. destruct (found_savings text m Hm) as (X & HX & _).
  exists X. split; [exact HX|].
  unfold SavingsProcessor.calculate_coupon, get_default. rewrite HX, bind_ok_eq. split.
  - intros p p' Hp Hp'. by rewrite (py_sub_number_float _ p p' X Hp Hp').
  - intros s Hs. by rewrite Hs.
Qed.

(** "Save $0.10" on a unit price of 1.135 leaves 1.03. *)
Lemma X7_savings_coupon_witness :
  let item : record :=
    {[ "digital_coupon_short_description" := VStr "Save $0.10"; "unit_price" := VFloat 1.135 ]} in
  let m : captures := {[ "savings" := list_ascii_of_string "0.10" ]} in
  SavingsProcessor.calculate_coupon item m =
    Ok (<["digital_coupon_price" := VFloat 0.1]> (<["unit_price" := VFloat 1.03]> item)).
Proof.
  intros item m.
  destruct (X7_savings_coupon item "Save $0.10" m) as (X & HX & H & _); [by_vm|].
  assert (X = 0.1%float) as ->.
  { assert (E : group_float m "savings" = Ok (VFloat 0.1)) by by_vm.
    rewrite E in HX. by invert HX. }
  rewrite (H (NFloat 1.135) 1.135%float eq_refl eq_refl). by_vm.
Defined.

(** X8.  [PricePerLbProcessor.calculate_coupon] on a match of [$X/lb]
    when the record has a [unit_price]: with a numeric unit price and a
    numeric weight (1 when the record has no weight), taken as the floats
    [u] and [w], it sets [unit_price] to [round(u - X * w, 2)], in the
    arithmetic of doubles, and [digital_coupon_price] to [X] itself, and
    writes no other field; a text weight or a text unit price raises
    [TypeError]. *)
Theorem X8_price_per_lb_coupon :
  ∀ (item : record) (text : string) (m : captures) (prior : value),
    found PricePerLbProcessor.pattern text m →
    item !! "unit_price" = Some prior →
    ∃ X : float,
      group_float m "price_per_lb" = Ok (VFloat X) ∧ Float.non_negative X ∧
      (∀ u u' w w', as_number prior = Some u → to_float u = Ok u' →
         as_number (default (VInt 1) (item !! "weight")) = Some w → to_float w = Ok w' →
         PricePerLbProcessor.calculate_coupon item m =
           Ok (<["digital_coupon_price" := VFloat X]>
                 (<["unit_price" := VFloat (Float.round2 (Float.sub u' (Float.mul X w')))]>
                    item))) ∧
      (∀ s, item !! "weight" = Some (VStr s) →
         PricePerLbProcessor.calculate_coupon item m = Raise TypeError) ∧
      (∀ s w w', prior = VStr s →
         as_number (default (VInt 1) (item !! "weight")) = Some w → to_float w = Ok w' →
         PricePerLbProcessor.calculate_coupon item m = Raise TypeError).
Proof.
  intros item text m prior Hm Hu. destruct (found_lb text m Hm) as (X & HX & Hpos).
  exists X. split; [exact HX|]. split; [exact Hpos|].
  unfold PricePerLbProcessor.calculate_coupon, get_default, getitem.
  rewrite HX, bind_ok_eq, Hu, bind_ok_eq. split; [|split].
  - intros u u' w w' Hpu Hu' Hw Hw'.
    rewrite (py_mul_float_number X _ w w' Hw Hw'), bind_ok_eq.
    by rewrite (py_sub_number_float _ u u' _ Hpu Hu').
  - intros s Hs. by rewrite Hs.
  - intros s w w' -> Hw Hw'. by rewrite (py_mul_float_number X _ w w' Hw Hw'), bind_ok_eq.
Qed.

(** "$0.51/lb" off a unit price of 4 for half a pound leaves 3.75: the
    product of the doubles 0.51 and 0.5 lies below 0.255. *)
Lemma X8_price_per_lb_coupon_witness :
  let item : record :=
    {[ "digital_coupon_short_description" := VStr "$0.51/lb"; "unit_price" := VInt 4;
       "weight" := VFloat 0.5 ]} in
  let m : captures := {[ "price_per_lb" := list_ascii_of_string "0.51" ]} in
  PricePerLbProcessor.calculate_coupon item m =
    Ok (<["digital_coupon_price" := VFloat 0.51]> (<["unit_price" := VFloat 3.75]> item)).
Proof.
  intros item m.
  destruct (X8_price_per_lb_coupon item "$0.51/lb" m (VInt 4)) as (X & HX & _ & H & _);
    [by_vm|by_vm|].
  assert (X = 0.51%float) as ->.
  { assert (E : group_float m "price_per_lb" = Ok (VFloat 0.51)) by by_vm.
    rewrite E in HX. by invert HX. }
  rewrite (H (NInt 4) 4%float (NFloat 0.5) 0.5%float eq_refl eq_refl eq_refl eq_refl). by_vm.
Defined.

(** The branch with a discount group, as the code computes it. *)
Lemma BuyGetFree_deal_discount item qs fs ds N M X :
  digits ds → py_int qs = Ok N → py_int fs = Ok M → py_int ds = Ok X →
  BuyGetFreeProcessor.calculate_deal item
      (<["discount" := ds]> (<["free" := fs]> (<["quantity" := qs]> ∅))) =
    discount_decimal ← py_truediv (VInt X) (VInt 100);
    regular_price ← getitem item "regular_price";
    full_price_total ← py_mul regular_price (VInt N);
    keep ← py_sub (VInt 1) discount_decimal;
    discounted ← py_mul regular_price keep;
    discounted_total ← py_mul discounted (VInt M);
    total ← py_add full_price_total discounted_total;
    unit ← py_truediv total (VInt (N + M));
    v ← py_round2 total;
    u ← py_round2 unit;
    Ok (<["digital_coupon_price" := VStr ""]>
          (<["unit_price" := u]> (<["volume_deals_price" := v]> item))).
Proof.
  intros Hd Hq Hf Hx. destruct (discount_captures_lookup qs fs ds) as (Gq & Gf & _ & Gd).
  unfold BuyGetFreeProcessor.calculate_deal.
  rewrite Gq, Gf, Gd, !bind_ok_eq, Hq, Hf, !bind_ok_eq.
  rewrite (group_truthy_digits ds Hd). change (default [] (Some ds)) with ds.
  rewrite Hx, bind_ok_eq.
  destruct (py_truediv (VInt X) (VInt 100)) as [dd|e]; [|done]. rewrite !bind_ok_eq.
  destruct (getitem item "regular_price") as [price|e]; [|done]. rewrite !bind_ok_eq.
  destruct (py_mul price (VInt N)) as [full|e]; [|done]. rewrite !bind_ok_eq.
  destruct (py_sub (VInt 1) dd) as [keep|e]; [|done]. rewrite !bind_ok_eq.
  destruct (py_mul price keep) as [disc|e]; [|done]. rewrite !bind_ok_eq.
  destruct (py_mul disc (VInt M)) as [dt|e]; [|done]. rewrite !bind_ok_eq.
  by destruct (py_add full dt).
Qed.

(** X9.  [BuyGetFreeProcessor.calculate_deal] on a match of the pattern
    with a discount group, [Buy N, get M X% off], for a record whose
    regular price is a float [p]: the three groups are runs of digits;
    when [int] reads them as [N], [M] and [X], the fraction [X / 100] and
    the quantities are floats and [N + M] is not zero,
    [volume_deals_price] is [round(p*N + p*(1 - X/100)*M, 2)],
    [unit_price] is that total, not rounded, divided by [N + M] and then
    rounded, all in the arithmetic of doubles, and [digital_coupon_price]
    is the empty text. *)
Theorem X9_buy_get_discount_deal :
  ∀ (item : record) (text : string) (m : captures) (p : float),
    found BuyGetFreeProcessor.pattern_discount text m →
    item !! "regular_price" = Some (VFloat p) →
    (∃ qs fs ds,
       group m "quantity" = Ok qs ∧ group m "free" = Ok fs ∧ group m "discount" = Ok ds ∧
       digits qs ∧ digits fs ∧ digits ds) ∧
    (∀ N M X n k t dd,
       group m "quantity" ≫= py_int = Ok N → group m "free" ≫= py_int = Ok M →
       group m "discount" ≫= py_int = Ok X →
       py_truediv (VInt X) (VInt 100) = Ok (VFloat dd) →
       Float.of_int N = Ok n → Float.of_int M = Ok k → Float.of_int (N + M) = Ok t →
       (0 < N + M)%Z →
       let total := Float.add (Float.mul p n) (Float.mul (Float.mul p (Float.sub 1 dd)) k) in
       BuyGetFreeProcessor.calculate_deal item m =
         Ok (<["digital_coupon_price" := VStr ""]>
               (<["unit_price" := VFloat (Float.round2 (Float.div total t))]>
                  (<["volume_deals_price" := VFloat (Float.round2 total)]> item)))).
Proof.
  intros item text m p Hm Hp.
  apply pattern_discount_captures in Hm as (qs & fs & ds & Hq & Hf & Hd & ->).
  destruct (discount_captures_lookup qs fs ds) as (Gq & Gf & Gd & _).
  split; [exists qs, fs, ds; do 3 (split; [assumption|]); auto|].
  intros N M X n k t dd HN HM HX Hdd Hn Hk Ht Hpos total.
  rewrite Gq, bind_ok_eq in HN. rewrite Gf, bind_ok_eq in HM. rewrite Gd, bind_ok_eq in HX.
  rewrite (BuyGetFree_deal_discount item qs fs ds N M X Hd HN HM HX).
  unfold getitem. rewrite Hdd, bind_ok_eq, Hp, bind_ok_eq.
  rewrite (py_mul_float_int p N n Hn), bind_ok_eq.
  rewrite (py_sub_number_float (VInt 1) (NInt 1) 1%float dd eq_refl eq_refl), bind_ok_eq.
  rewrite py_mul_float_float, bind_ok_eq.
  rewrite (py_mul_float_int _ M k Hk), bind_ok_eq.
  rewrite py_add_float_float, bind_ok_eq.
  rewrite (py_truediv_float_int _ _ t Ht (of_int_nonzero (N + M) t ltac:(lia) Ht)).
  by rewrite bind_ok_eq, !py_round2_float, !bind_ok_eq.
Qed.

(** "Buy 1, get 1 10% off" at 0.50: the total is 0.95 and the unit price
    0.47, since the double nearest to 0.475 lies below it. *)
Lemma X9_buy_get_discount_deal_witness :
  let item : record :=
    {[ "volume_deals_description" := VStr "Buy 1, get 1 10% off";
       "regular_price" := VFloat 0.5 ]} in
  let m : captures :=
    <["discount" := list_ascii_of_string "10"]>
      (<["free" := [ "1"%char ]]> (<["quantity" := [ "1"%char ]]> ∅)) in
  BuyGetFreeProcessor.calculate_deal item m =
    Ok (<["digital_coupon_price" := VStr ""]>
          (<["unit_price" := VFloat 0.47]> (<["volume_deals_price" := VFloat 0.95]> item))).
Proof.
  intros item m.
  destruct (X9_buy_get_discount_deal item "Buy 1, get 1 10% off" m 0.5%float) as (_ & H);
    [by_vm|by_vm|].
  rewrite (H 1%Z 1%Z 10%Z 1%float 1%float 2%float 0.1%float);
    [by_vm | by_vm | by_vm | by_vm | by_vm | by_vm | by_vm | by_vm | lia].
Defined.







Lemma coupon_base_price_number item b :
  BuyGetFreeProcessor.coupon_base_price item = Ok b →
  (∃ f, b = VFloat f) ∨ b = VInt 0.
Proof.
  unfold BuyGetFreeProcessor.coupon_base_price. cbv zeta.
  match goal with |- (if ?c then _ else _) = _ → _ => destruct c end.
  - intros H. bind_ok H. invert H. left. eauto.
  - intros H. invert H. by right.
Qed.

(** X11.  [BuyGetFreeProcessor.calculate_coupon] on a match of
    [Buy N, Get M Free], with the base price resolved from the record,
    which is a float or the integer 0.  With a float [b], [N] and [N + M]
    floats and [N + M] not zero, [digital_coupon_price] becomes [b * N],
    stored as the product of doubles it is, not rounded, and [unit_price]
    becomes [round(b * N / (N + M), 2)]; with the base 0 they are the
    integer 0 and the float 0.  No other field is written.  When the base
    price cannot be resolved the strategy raises what the resolution
    raised. *)
Theorem X11_buy_get_coupon_totals :
  ∀ (item : record) (text : string) (m : captures) (N M : Z),
    found BuyGetFreeProcessor.pattern_free text m →
    group m "quantity" ≫= py_int = Ok N →
    group m "free" ≫= py_int = Ok M →
    (∀ b, BuyGetFreeProcessor.coupon_base_price item = Ok b →
       (∃ f, b = VFloat f) ∨ b = VInt 0) ∧
    (∀ b n t, BuyGetFreeProcessor.coupon_base_price item = Ok (VFloat b) →
       Float.of_int N = Ok n → Float.of_int (N + M) = Ok t → (0 < N + M)%Z →
       BuyGetFreeProcessor.calculate_coupon item m =
         Ok (<["digital_coupon_price" := VFloat (Float.mul b n)]>
               (<["unit_price" := VFloat (Float.round2 (Float.div (Float.mul b n) t))]>
                  item))) ∧
    (BuyGetFreeProcessor.coupon_base_price item = Ok (VInt 0) → (0 < N + M)%Z →
     BuyGetFreeProcessor.calculate_coupon item m =
       Ok (<["digital_coupon_price" := VInt 0]> (<["unit_price" := VFloat 0]> item))) ∧
    (∀ e, BuyGetFreeProcessor.coupon_base_price item = Raise e →
       BuyGetFreeProcessor.calculate_coupon item m = Raise e).
Proof.
  intros item text m N M Hm HN HM.
  apply pattern_free_captures in Hm as (qs & fs & Hq & Hf & ->).
  destruct (free_captures_lookup qs fs) as (Gq & Gf & _).
  rewrite Gq, bind_ok_eq in HN. rewrite Gf, bind_ok_eq in HM.
  rewrite (BuyGetFree_coupon_free item qs fs N M HN HM).
  split; [apply coupon_base_price_number|]. split; [|split].
  - intros b n t Hb Hn Ht Hpos. rewrite Hb, bind_ok_eq.
    rewrite (py_mul_float_int b N n Hn), bind_ok_eq.
    rewrite (py_truediv_float_int _ _ t Ht (of_int_nonzero (N + M) t ltac:(lia) Ht)).
    by rewrite bind_ok_eq, py_round2_float, bind_ok_eq.
  - intros Hb Hpos. rewrite Hb, bind_ok_eq.
    rewrite (py_mul_int_int (VInt 0) 0 N eq_refl), bind_ok_eq.
    change (0 * N)%Z with 0%Z.
    assert (Hq0 : Float.int_div 0 (N + M) = 0%float).
    { unfold Float.int_div. destruct (Z.ltb_spec (N + M) 0); [lia|]. done. }
    rewrite (py_truediv_int_int 0 (N + M) ltac:(lia)) by (by rewrite Hq0).
    by rewrite Hq0.
  - intros e He. by rewrite He.
Qed.

(** "Buy 3, Get 1 Free" as a coupon on a sale price of 1.10: the total
    stored is the product of doubles 3.3000000000000003, and the unit
    price 0.83. *)
Lemma X11_buy_get_coupon_totals_witness :
  let item : record :=
    {[ "digital_coupon_short_description" := VStr "Buy 3, Get 1 Free";
       "sale_price" := VFloat 1.1 ]} in
  let m : captures := <["free" := [ "1"%char ]]> (<["quantity" := [ "3"%char ]]> ∅) in
  BuyGetFreeProcessor.calculate_coupon item m =
    Ok (<["digital_coupon_price" := VFloat 3.3000000000000003]>
          (<["unit_price" := VFloat 0.83]> item)).
Proof.
  intros item m.
  destruct (X11_buy_get_coupon_totals item "Buy 3, Get 1 Free" m 3 1) as (_ & H & _);
    [by_vm|by_vm|by_vm|].
  rewrite (H 1.1%float 3%float 4%float); [by_vm | by_vm | by_vm | by_vm | lia].
Defined.

(** ** More on the driver *)

Lemma catalog_pattern_no_match_empty p r :
  p ∈ subclasses → r ∈ patterns p → no_match r "".
Proof.
  intros Hp Hr. destruct (catalog_pattern_small_letter p r Hp Hr) as (c & Hc & _).
  unfold no_match. change (list_ascii_of_string "") with (@nil ascii).
  eapply search_from_required; [exact Hc|]. apply not_elem_of_nil.
Qed.

Lemma selects_none_empty catalog :
  (∀ q, q ∈ catalog → q ∈ subclasses) → selects_none catalog "".
Proof.
  intros Hcat. apply Forall_forall. intros [p r] He.
  apply entries_elem in He as [Hp Hr]. by eapply catalog_pattern_no_match_empty; eauto.
Qed.

(** X1.  A pass over a description that no catalog pattern matches
    returns the record as it is, logs nothing and has searched every
    pattern once, in registration order.  With the four strategy classes
    this is what happens when the description field is absent (it is
    searched as the empty text) or empty. *)
Theorem X1_pass_without_match :
  ∀ (md : mode) (catalog : list Processor) (item_data updated : record),
    (∀ text, description md updated = VStr text → selects_none catalog text →
       run_pass md catalog item_data updated =
         (map Searched (map snd (entries catalog)), Ok updated)) ∧
    ((∀ q, q ∈ catalog → q ∈ subclasses) →
     updated !! description_key md = None ∨ updated !! description_key md = Some (VStr "") →
     run_pass md catalog item_data updated =
       (map Searched (map snd (entries catalog)), Ok updated)).
Proof.
  intros md catalog item_data updated. split.
  - intros text Hd Hn. by apply run_pass_unselected with text.
  - intros Hcat Hk. apply run_pass_unselected with "".
    + unfold description, get_default. by destruct Hk as [-> | ->].
    + by apply selects_none_empty.
Qed.

Lemma X1_pass_without_match_witness :
  let item : record := {[ "regular_price" := VFloat 3 ]} in
  run_pass Deal subclasses item item =
    (map Searched (map snd (entries subclasses)), Ok item).
Proof.
  intros item.
  apply (proj2 (X1_pass_without_match Deal subclasses item item) (λ q Hq, Hq)).
  left. by_vm.
Defined.

Lemma search_non_text r v : (∀ s, v ≠ VStr s) → search r v = Raise TypeError.
Proof. intros H. destruct v; try done. by destruct (H s). Qed.

Lemma try_patterns_non_text md p pats item_data updated :
  (∀ s, description md updated ≠ VStr s) →
  try_patterns md p pats item_data updated =
    match pats with
    | [] => ([], Ok None)
    | r :: _ => ([Searched r], Raise TypeError)
    end.
Proof.
  intros H. destruct pats as [|r pats]; [done|]. simpl.
  fold (description md updated). by rewrite (search_non_text r _ H).
Qed.

Lemma run_pass_non_text md catalog item_data updated :
  (∀ s, description md updated ≠ VStr s) →
  run_pass md catalog item_data updated =
    match entries catalog with
    | [] => ([], Ok updated)
    | (_, r) :: _ => ([Searched r], Raise TypeError)
    end.
Proof.
  intros H. induction catalog as [|p catalog IH]; [done|].
  rewrite entries_cons. simpl. rewrite (try_patterns_non_text _ _ _ _ _ H).
  destruct (patterns p) as [|r pats]; simpl; [|done].
  rewrite IH. by destruct (entries catalog) as [|[q r] es].
Qed.

(** X2.  A description field that holds something other than a text (a
    number, a boolean) makes the first [re.search] of the pass raise
    [TypeError]: one search is made, nothing is logged, and the exception
    leaves [process_single_item] when the field is the deal description. *)
Theorem X2_pass_on_non_text_description :
  ∀ (md : mode) (catalog : list Processor) (item_data updated : record)
    (v : value) (p : Processor) (r : regex) (rest : list (Processor * regex)),
    updated !! description_key md = Some v →
    (∀ s, v ≠ VStr s) →
    entries catalog = (p, r) :: rest →
    run_pass md catalog item_data updated = ([Searched r], Raise TypeError) ∧
    (md = Deal → outcome (process_single_item catalog updated) = Raise TypeError).
Proof.
  intros md catalog item_data updated v p r rest Hk Hv He.
  assert (Hd : ∀ s, description md updated ≠ VStr s).
  { intros s. unfold description, get_default. rewrite Hk. apply Hv. }
  split.
  - by rewrite (run_pass_non_text _ _ _ _ Hd), He.
  - intros ->. rewrite process_single_item_outcome.
    by rewrite (run_pass_non_text _ _ _ _ Hd), He.
Qed.

Lemma X2_pass_on_non_text_description_witness :
  let item : record := {[ "volume_deals_description" := VFloat 2; "regular_price" := VFloat 3 ]} in
  run_pass Deal subclasses item item =
    ([Searched BuyGetFreeProcessor.pattern_free], Raise TypeError) ∧
  (Deal = Deal → outcome (process_single_item subclasses item) = Raise TypeError).
Proof.
  intros item.
  apply (X2_pass_on_non_text_description Deal subclasses item item (VFloat 2)
           BuyGetFreeProcessor.processor BuyGetFreeProcessor.pattern_free
           (tail (entries subclasses))).
  - by_vm.
  - done.
  - reflexivity.
Defined.

Lemma tried_prefix es s : ∃ rest, map snd es = tried es s ++ rest.
Proof.
  induction es as [|[p r] es [rest IH]]; simpl; [by exists []|].
  destruct (search_from r s).
  - by exists (map snd es).
  - exists rest. by rewrite IH.
Qed.

Lemma invoke_trace md p item_data updated m :
  searches (trace (invoke md p item_data updated m)) = [] ∧
  (length (messages (trace (invoke md p item_data updated m))) <= 2)%nat.
Proof.
  unfold invoke. destruct (getitem item_data (description_key md)) as [d|e]; simpl;
    [|split; [done|lia]].
  destruct (calculate md p updated m); simpl; (split; [done|lia]).
Qed.

(** X3.  Whatever the record holds, the patterns a pass searches are an
    initial part of the catalog's patterns in registration order, each
    searched once, and the pass logs at most two lines. *)
Theorem X3_searches_are_a_catalog_prefix :
  ∀ (md : mode) (catalog : list Processor) (item_data updated : record),
    (∃ rest,
       map snd (entries catalog) =
         searches (trace (run_pass md catalog item_data updated)) ++ rest) ∧
    (length (messages (trace (run_pass md catalog item_data updated))) <= 2)%nat.
Proof.
  intros md catalog item_data updated.
  destruct (description md updated) as [z|q|text|b] eqn:Hd.
  1,2,4: rewrite run_pass_non_text by (intros s; by rewrite Hd);
    destruct (entries catalog) as [|[p r] es]; simpl; (split; [eauto|lia]).
  rewrite (run_pass_spec _ _ _ _ _ Hd).
  destruct (first_entry (entries catalog) _) as [[[p r] m]|] eqn:E.
  - destruct (invoke_trace md p item_data updated m) as [Hs Hm].
    unfold after_search, trace in *. simpl.
    rewrite searches_app, messages_app, searches_searched, messages_searched, Hs, app_nil_r.
    split; [apply tried_prefix|exact Hm].
  - unfold trace. simpl. rewrite searches_searched, messages_searched.
    split; [by exists []; rewrite app_nil_r|simpl; lia].
Qed.

(** X12.  The coupon pass never writes [volume_deals_price]: for the four
    strategy classes, in whatever order, the record a coupon pass returns
    has the [volume_deals_price] of the record it was given, and so the
    record [process_single_item] returns has the one the deal pass left
    (none if the deal pass left none). *)
Theorem X12_coupon_keeps_volume_deals_price :
  ∀ (catalog : list Processor) (item : record),
    (∀ q, q ∈ catalog → q ∈ subclasses) →
    (∀ updated out,
       outcome (run_pass Coupon catalog item updated) = Ok out →
       out !! "volume_deals_price" = updated !! "volume_deals_price") ∧
    (∀ after_deal out,
       outcome (run_pass Deal catalog item item) = Ok after_deal →
       outcome (process_single_item catalog item) = Ok out →
       out !! "volume_deals_price" = after_deal !! "volume_deals_price").
Proof.
  intros catalog item Hcat.
  assert (G : ∀ updated out,
            outcome (run_pass Coupon catalog item updated) = Ok out →
            out !! "volume_deals_price" = updated !! "volume_deals_price").
  { intros updated out H.
    apply run_pass_outcome in H as [-> | (q & m & Hq & Hc)]; [done|].
    simpl in Hc. apply coupon_post in Hc as (v & w & _ & _ & ->); [|by apply Hcat].
    by rewrite !lookup_insert_ne. }
  split; [exact G|].
  intros after_deal out Hd H. rewrite process_single_item_outcome, Hd in H. by apply G.
Qed.

Lemma X12_coupon_keeps_volume_deals_price_witness :
  let item : record :=
    {[ "volume_deals_description" := VStr "Buy 4, Get 1 Free";
       "digital_coupon_short_description" := VStr "Save $1";
       "regular_price" := VFloat 10 ]} in
  let after_deal : record :=
    <["digital_coupon_price" := VStr ""]>
      (<["unit_price" := VFloat 8]> (<["volume_deals_price" := VFloat 40]> item)) in
  let out : record :=
    <["digital_coupon_price" := VFloat 1]> (<["unit_price" := VFloat 7]> after_deal) in
  out !! "volume_deals_price" = after_deal !! "volume_deals_price".
Proof.
  intros item after_deal out.
  apply (proj2 (X12_coupon_keeps_volume_deals_price subclasses item (λ q Hq, Hq))
           after_deal out); by_vm.
Defined.

Lemma bind_cong {A B : Type} (r r' : result A) (f g : A → result B) :
  r = r' → (∀ a, f a = g a) → r ≫= f = r' ≫= g.
Proof. intros -> H. by apply bind_ext. Qed.

Lemma computed_overwritten k v a b c (item : record) :
  computed_field k →
  <["digital_coupon_price" := a]>
    (<["unit_price" := b]> (<["volume_deals_price" := c]> (<[k := v]> item))) =
  <["digital_coupon_price" := a]>
    (<["unit_price" := b]> (<["volume_deals_price" := c]> item)).
Proof.
  intros Hk. apply map_eq. intros i. rewrite !lookup_insert.
  repeat case_decide; try done. subst. destruct Hk as [? | [? | ?]]; congruence.
Qed.

Lemma lookup_other_than_computed k v (item : record) j :
  computed_field k → ¬ computed_field j → <[k := v]> item !! j = item !! j.
Proof. intros Hk Hj. apply lookup_insert_ne. by intros ->. Qed.

Lemma not_computed_regular_price : ¬ computed_field "regular_price".
Proof. by intros [? | [? | ?]]. Qed.

Lemma not_computed_price : ¬ computed_field "price".
Proof. by intros [? | [? | ?]]. Qed.

Lemma not_computed_weight : ¬ computed_field "weight".
Proof. by intros [? | [? | ?]]. Qed.

Lemma deal_ignores_computed p item m k v :
  p ∈ subclasses → computed_field k →
  calculate_deal p (<[k := v]> item) m = calculate_deal p item m.
Proof.
  intros Hp Hk.
  destruct (registered_cases p Hp) as [-> | [-> | [-> | ->]]]; simpl.
  - unfold BuyGetFreeProcessor.calculate_deal, getitem.
    rewrite (lookup_other_than_computed k v item _ Hk not_computed_regular_price).
    do 2 (apply bind_ext; intros ?).
    apply bind_ext. intros ?. do 3 (apply bind_ext; intros ?).
    by rewrite (computed_overwritten k v _ _ _ item Hk).
  - unfold DollarDiscountProcessor.calculate_deal, get_default.
    rewrite (lookup_other_than_computed k v item _ Hk not_computed_price).
    do 4 (apply bind_ext; intros ?). by rewrite (computed_overwritten k v _ _ _ item Hk).
  - unfold PricePerLbProcessor.calculate_deal, get_default.
    rewrite (lookup_other_than_computed k v item _ Hk not_computed_weight).
    do 4 (apply bind_ext; intros ?). by rewrite (computed_overwritten k v _ _ _ item Hk).
  - unfold SavingsProcessor.calculate_deal, get_default.
    rewrite (lookup_other_than_computed k v item _ Hk not_computed_price).
    do 4 (apply bind_ext; intros ?). by rewrite (computed_overwritten k v _ _ _ item Hk).
Qed.

Lemma first_entry_elem es s p r m :
  first_entry es s = Some (p, r, m) → (p, r) ∈ es ∧ search_from r s = Some m.
Proof.
  intros H. apply first_entry_split in H as (earlier & later & -> & _ & Hm).
  split; [|done]. apply elem_of_app. right. by left.
Qed.

Lemma description_after_deal md a b c (item : record) :
  description md
    (<["digital_coupon_price" := a]>
       (<["unit_price" := b]> (<["volume_deals_price" := c]> item))) =
  description md item.
Proof.
  unfold description, get_default. rewrite !lookup_insert_ne; [done|by destruct md..].
Qed.

Lemma deal_again p item m u :
  p ∈ subclasses → calculate_deal p item m = Ok u → calculate_deal p u m = Ok u.
Proof.
  intros Hp H. pose proof H as H'.
  apply deal_post in H' as (v & w & _ & _ & ->); [|done].
  rewrite !deal_ignores_computed; [done|done|unfold computed_field; auto..].
Qed.

(** X13.  The deal strategies compute from [regular_price], [price] and
    [weight] only: whatever a record holds under [volume_deals_price],
    [unit_price] or [digital_coupon_price] has no influence on the result
    of a deal strategy, and a deal pass run on its own output returns that
    output again. *)
Theorem X13_deal_pass_ignores_computed_fields :
  ∀ (catalog : list Processor) (item : record),
    (∀ q, q ∈ catalog → q ∈ subclasses) →
    (∀ p m k v, p ∈ catalog → computed_field k →
       calculate_deal p (<[k := v]> item) m = calculate_deal p item m) ∧
    (∀ u, outcome (run_pass Deal catalog item item) = Ok u →
       outcome (run_pass Deal catalog u u) = Ok u).
Proof.
  intros catalog item Hcat. split.
  - intros p m k v Hp Hk. apply deal_ignores_computed; [by apply Hcat|done].
  - intros u H.
    destruct (description Deal item) as [z|q|text|b] eqn:Hd.
    1,2,4: rewrite run_pass_non_text in H by (intros s; by rewrite Hd);
      destruct (entries catalog) as [|[p r] es] eqn:He; [|done]; invert H;
      rewrite run_pass_non_text by (intros s; by rewrite Hd); by rewrite He.
    rewrite (run_pass_spec _ _ _ _ _ Hd) in H.
    destruct (first_entry (entries catalog) _) as [[[p r] m]|] eqn:E.
    + unfold after_search, outcome in H. simpl in H.
      fold (outcome (invoke Deal p item item m)) in H. rewrite invoke_outcome in H.
      destruct (getitem item (description_key Deal)) as [d|e] eqn:Hg; [|done].
      simpl in H.
      assert (Hp : p ∈ subclasses).
      { apply Hcat. apply first_entry_elem in E as [E _]. by apply entries_elem in E as [? _]. }
      pose proof H as Hu. apply deal_post in Hu as (v & w & _ & _ & Hu); [|done].
      assert (Hdu : description Deal u = VStr text).
      { rewrite Hu, description_after_deal. exact Hd. }
      rewrite (run_pass_spec _ _ _ _ _ Hdu), E.
      unfold after_search, outcome. simpl.
      fold (outcome (invoke Deal p u u m)). rewrite invoke_outcome.
      assert (Hgu : getitem u (description_key Deal) = Ok d).
      { unfold getitem in *. rewrite Hu, !lookup_insert_ne by done. exact Hg. }
      rewrite Hgu. simpl. exact (deal_again p item m u Hp H).
    + invert H. by rewrite (run_pass_spec _ _ _ _ _ Hd), E.
Qed.

Lemma X13_deal_pass_ignores_computed_fields_witness :
  let item : record :=
    {[ "volume_deals_description" := VStr "$3.50/lb"; "weight" := VInt 2 ]} in
  let u : record :=
    <["digital_coupon_price" := VStr ""]>
      (<["unit_price" := VFloat 3.5]> (<["volume_deals_price" := VFloat 7]> item)) in
  outcome (run_pass Deal subclasses u u) = Ok u.
Proof.
  intros item u.
  apply (proj2 (X13_deal_pass_ignores_computed_fields subclasses item (λ q Hq, Hq)) u).
  by_vm.
Defined.

(** ** Store brands *)

Lemma starts_with_spec p s : starts_with p s = true ↔ ∃ post, s = p ++ post.
Proof.
  revert s. induction p as [|c p IH]; intros s; simpl.
  - split; [by exists s|done].
  - destruct s as [|d s].
    + split; [done|]. by intros (post & ?).
    + rewrite andb_true_iff, IH. split.
      * intros [Hc (post & ->)]. apply Ascii.eqb_eq in Hc as ->. by exists post.
      * intros (post & Hs). invert Hs. split; [apply Ascii.eqb_refl|by exists post].
Qed.

Lemma contains_spec s p : contains s p = true ↔ occurs_in p s.
Proof.
  unfold occurs_in. induction s as [|d s IH]; simpl.
  - rewrite orb_false_r, starts_with_spec. split.
    + intros (post & Hs). by exists [], post.
    + intros (pre & post & Hs). destruct pre; [by exists post|done].
  - rewrite orb_true_iff, starts_with_spec, IH. split.
    + intros [(post & Hs) | (pre & post & ->)]; [by exists [], post|].
      by exists (d :: pre), post.
    + intros ([|c pre] & post & Hs).
      * left. by exists post.
      * right. invert Hs. by exists pre, post.
Qed.

Lemma brands_in_title_text brands item title :
  item !! "product_title" = Some (VStr title) →
  brands_in_title brands item =
    Ok (filter (λ b, contains (casefold (list_ascii_of_string title))
                       (casefold (list_ascii_of_string b)) = true) brands).
Proof.
  intros Ht. induction brands as [|b brands IH]; simpl; [done|].
  unfold title_casefolded at 1, getitem. rewrite Ht, bind_ok_eq, bind_ok_eq, IH, bind_ok_eq.
  rewrite filter_cons. by case_decide; destruct (contains _ _).
Qed.

Lemma any_of_brands (l : list string) :
  Forall (λ b, b ≠ "") l →
  existsb (λ b, negb (String.eqb b "")) l = match l with [] => false | _ => true end.
Proof.
  destruct l as [|b l]; [done|]. intros H. apply Forall_cons in H as [Hb _]. simpl.
  apply String.eqb_neq in Hb. by rewrite Hb.
Qed.

Lemma all_brands_named : Forall (λ b, b ≠ "") all_brands.
Proof. repeat (apply Forall_cons; split; [done|]). constructor. Qed.

(** X14.  [apply_store_brands] on a record whose [product_title] is a
    text returns the record with [brandStatus] set and nothing else
    touched; the status is true exactly when the title, letter case
    aside, holds one of the brand names of the four stores. *)
Theorem X14_store_brands_tag :
  ∀ (item : record) (title : string),
    item !! "product_title" = Some (VStr title) →
    ∃ b : bool,
      apply_store_brands item = Ok (<["brandStatus" := VBool b]> item) ∧
      (b = true ↔
       ∃ brand, brand ∈ all_brands ∧
         occurs_in (casefold (list_ascii_of_string brand))
                   (casefold (list_ascii_of_string title))).
Proof.
  intros item title Ht. unfold apply_store_brands. fold all_brands.
  rewrite (brands_in_title_text all_brands item title Ht), bind_ok_eq.
  set (hit := λ b : string, contains (casefold (list_ascii_of_string title))
                              (casefold (list_ascii_of_string b)) = true).
  assert (Hsub : Forall (λ b, b ≠ "") (filter hit all_brands)).
  { apply Forall_forall. intros b Hb. apply list_elem_of_filter in Hb as [_ Hb].
    revert b Hb. apply Forall_forall. exact all_brands_named. }
  rewrite (any_of_brands _ Hsub). eexists. split; [reflexivity|].
  split.
  - intros Hne. destruct (filter hit all_brands) as [|b l] eqn:E; [done|].
    assert (Hb : b ∈ filter hit all_brands) by (rewrite E; by left).
    apply list_elem_of_filter in Hb as [Hh Hb]. exists b. split; [done|].
    by apply contains_spec.
  - intros (brand & Hb & Ho). apply contains_spec in Ho.
    assert (Hin : brand ∈ filter hit all_brands) by (by apply list_elem_of_filter).
    destruct (filter hit all_brands); [by apply elem_of_nil in Hin|done].
Qed.

Lemma X14_store_brands_tag_witness :
  let item : record := {[ "product_title" := VStr "KROGER whole milk" ]} in
  ∃ b : bool,
    apply_store_brands item = Ok (<["brandStatus" := VBool b]> item) ∧
    (b = true ↔
     ∃ brand, brand ∈ all_brands ∧
       occurs_in (casefold (list_ascii_of_string brand))
                 (casefold (list_ascii_of_string "KROGER whole milk"))).
Proof.
  intros item. apply (X14_store_brands_tag item "KROGER whole milk"). by_vm.
Defined.

(** X15.  [apply_store_brands] reads [product_title] unguarded: a record
    without the field raises [KeyError], and a record that holds a number
    or a boolean there raises [AttributeError]. *)
Theorem X15_store_brands_errors :
  ∀ (item : record),
    (item !! "product_title" = None →
     apply_store_brands item = Raise (KeyError "product_title")) ∧
    (∀ v, item !! "product_title" = Some v → (∀ s, v ≠ VStr s) →
       apply_store_brands item = Raise AttributeError).
Proof.
  intros item. unfold apply_store_brands. split.
  - intros Ht. simpl. unfold title_casefolded, getitem. by rewrite Ht.
  - intros v Ht Hv. simpl. unfold title_casefolded, getitem. rewrite Ht, bind_ok_eq.
    destruct v; try done. by destruct (Hv s).
Qed.

Lemma X15_store_brands_errors_witness :
  let item : record := {[ "regular_price" := VFloat 3 ]} in
  apply_store_brands item = Raise (KeyError "product_title").
Proof.
  intros item. apply (proj1 (X15_store_brands_errors item)). by_vm.
Defined.

(** X16.  Brand tagging does not look at letter case: two records whose
    titles differ only in the case of their letters get the same
    [brandStatus]. *)
Theorem X16_store_brands_case_insensitive :
  ∀ (item item' : record) (title title' : string),
    item !! "product_title" = Some (VStr title) →
    item' !! "product_title" = Some (VStr title') →
    same_up_to_case title title' →
    ∃ b : bool,
      apply_store_brands item = Ok (<["brandStatus" := VBool b]> item) ∧
      apply_store_brands item' = Ok (<["brandStatus" := VBool b]> item').
Proof.
  intros item item' title title' Ht Ht' Hc. unfold apply_store_brands. fold all_brands.
  rewrite (brands_in_title_text all_brands item title Ht),
    (brands_in_title_text all_brands item' title' Ht'), !bind_ok_eq.
  unfold same_up_to_case in Hc. rewrite Hc. eauto.
Qed.

Lemma X16_store_brands_case_insensitive_witness :
  let item : record := {[ "product_title" := VStr "Great Value rice" ]} in
  let item' : record := {[ "product_title" := VStr "GREAT VALUE RICE"; "weight" := VInt 1 ]} in
  ∃ b : bool,
    apply_store_brands item = Ok (<["brandStatus" := VBool b]> item) ∧
    apply_store_brands item' = Ok (<["brandStatus" := VBool b]> item').
Proof.
  intros item item'.
  apply (X16_store_brands_case_insensitive item item' "Great Value rice" "GREAT VALUE RICE");
    [by_vm | by_vm | reflexivity].
Defined.

(** ** The batch entry point *)

Lemma process_each_ok catalog items new :
  outcome (process_each catalog items) = Ok new ↔
  Forall2 (λ item r, ∃ u, outcome (process_single_item catalog item) = Ok u ∧
                          apply_store_brands u = Ok r) items new.
Proof.
  revert new. induction items as [|item items IH]; intros new.
  - simpl. split.
    + intros H. invert H. constructor.
    + intros H. by invert H.
  - rewrite process_each_cons, outcome_bind. split.
    + destruct (outcome (process_single_item catalog item)) as [u|e] eqn:Hu; [|done].
      rewrite bind_ok_eq, outcome_bind. change (outcome (lift ?r)) with r.
      destruct (apply_store_brands u) as [t|e] eqn:Ht; [|done].
      rewrite bind_ok_eq, outcome_bind.
      destruct (outcome (process_each catalog items)) as [others|e] eqn:Ho; [|done].
      rewrite bind_ok_eq. intros H. invert H. constructor; [eauto|]. by apply IH.
    + intros H. invert H.
      match goal with H : ∃ u, _ |- _ => destruct H as (u & Hu & Ht) end.
      rewrite Hu, bind_ok_eq, outcome_bind. change (outcome (lift ?r)) with r.
      rewrite Ht, bind_ok_eq, outcome_bind.
      match goal with H : Forall2 _ _ _ |- _ => apply IH in H as -> end. done.
Qed.

(** X17.  [process_item] on a list returns exactly when every record of
    the list is processed and tagged without an exception, and then the
    results are the former results followed by one record per input
    record, in input order: the record at each position is the input
    record at that position, processed and then tagged. *)
Theorem X17_process_item_in_order :
  ∀ (catalog : list Processor) (results items out : list record),
    outcome (process_item catalog results (Many items)) = Ok out ↔
    ∃ new,
      out = results ++ new ∧
      Forall2 (λ item r, ∃ u, outcome (process_single_item catalog item) = Ok u ∧
                              apply_store_brands u = Ok r) items new.
Proof.
  intros catalog results items out. simpl. rewrite outcome_bind. split.
  - destruct (outcome (process_each catalog items)) as [new|e] eqn:E; [|done].
    rewrite bind_ok_eq. intros H. invert H. exists new. split; [done|].
    by apply process_each_ok.
  - intros (new & -> & H). apply process_each_ok in H. by rewrite H.
Qed.

(** X18.  [process_item] on a single record does what it does on the list
    that holds just that record: the same results, the same exception and
    the same searches and log lines. *)
Theorem X18_single_record_is_singleton_list :
  ∀ (catalog : list Processor) (results : list record) (item : record),
    process_item catalog results (Single item) = process_item catalog results (Many [item]).
Proof.
  intros catalog results item. simpl.
  destruct (process_single_item catalog item) as [t [u|e]]; simpl; [|done].
  destruct (apply_store_brands u) as [r|e]; simpl; by rewrite ?app_nil_r.
Qed.

(** ** What the passes can raise *)










Lemma py_truediv_float_by_one_raise f e : py_truediv (VFloat f) (VInt 1) = Raise e → False.
Proof. done. Qed.













